(** * Receipt points service (fetch-points.go)

    A shallow embedding of the receipt validator ([processReceipts]) and of
    the scoring engine ([calculatePoints], [countAlphanumeric]) together with
    the parts of the Go standard library they call: [strconv.ParseFloat],
    [strconv.Atoi], [strings.Split], [strings.TrimSpace], [math.Mod],
    [math.Ceil], [fmt.Sprintf "%.2f"], the conversions between [int] and
    [float64], and 64-bit [int] arithmetic.

    Go strings are byte sequences: they are modelled by [string] (a list of
    8-bit [ascii]).  [float64] is IEEE 754 binary64, modelled by the
    standard library's [spec_float] at precision 53 and maximal exponent
    1024, with round-to-nearest-even.  Go's [int] is the 64-bit
    two's-complement integer, modelled in [Z] with its wrap-around written
    out.  A run-time panic is modelled by [None]. *)

From Stdlib Require Import ZArith Lia Bool List Ascii String DecimalString.
From Stdlib Require Import Floats.SpecFloat.
From stdpp Require Import gmap strings.

Local Open Scope Z_scope.

(** ** Bytes *)

Definition code (c : ascii) : Z := Z.of_N (N_of_ascii c).

Definition byte_eqb (c d : ascii) : bool := Ascii.eqb c d.

Definition is_digit (c : ascii) : bool := (48 <=? code c) && (code c <=? 57).

(** [lower] of strconv: [c | ('x' - 'X')]. *)
Definition lower (c : ascii) : ascii := ascii_of_N (N.lor (N_of_ascii c) 32).

Definition is_hex_letter (c : ascii) : bool :=
  (97 <=? code (lower c)) && (code (lower c) <=? 102).

Definition bytes (s : string) : list ascii := list_ascii_of_string s.

(** ** Go's [int] on a 64-bit platform *)

Module GoInt.

Definition min_int : Z := - 2 ^ 63.
Definition max_int : Z := 2 ^ 63 - 1.

Definition in_range (z : Z) : bool := (min_int <=? z) && (z <=? max_int).

(** Two's-complement wrap-around of an exact result. *)
Definition wrap (z : Z) : Z := (z + 2 ^ 63) mod 2 ^ 64 - 2 ^ 63.

Definition add (a b : Z) : Z := wrap (a + b).
Definition mul (a b : Z) : Z := wrap (a * b).
(** [/] and [%] truncate towards zero. *)
Definition div (a b : Z) : Z := wrap (Z.quot a b).
Definition rem (a b : Z) : Z := Z.rem a b.

End GoInt.

(** ** float64 *)

Module F64.

Definition prec : Z := 53.
Definition emax : Z := 1024.

Definition float64 : Type := spec_float.

Definition zero : float64 := S754_zero false.

(** The float64 nearest to the integer [n] (ties to even): the conversion
    [float64(n)] and the value of an integer constant. *)
Definition of_int (n : Z) : float64 := binary_normalize prec emax n 0 false.

(** The float64 nearest to [num / den], for [0 <= num] and [0 < den],
    with the sign [neg]. *)
Definition of_ratio (neg : bool) (num den : Z) : float64 :=
  match num with
  | 0 => S754_zero neg
  | _ => let '(q, e, l) := SFdiv_core_binary prec emax num 0 den 0 in
         binary_round_aux prec emax neg q e l
  end.

Definition mul (x y : float64) : float64 := SFmul prec emax x y.

(** [x == y]: false on NaN, true on zeros of either sign. *)
Definition eqb (x y : float64) : bool := SFeqb x y.
Definition ltb (x y : float64) : bool := SFltb x y.
Definition leb (x y : float64) : bool := SFleb x y.

(** The integer part of a finite float, truncated towards zero. *)
Definition trunc (x : float64) : option Z :=
  match x with
  | S754_zero _ => Some 0
  | S754_finite s m e =>
      Some (cond_Zopp s (if 0 <=? e then Z.pos m * 2 ^ e
                         else Z.pos m / 2 ^ (- e)))
  | _ => None
  end.

(** The conversion [int(x)].  The fraction is discarded.  Go leaves the
    result open when the value does not fit; the amd64 instruction
    (CVTTSD2SQ) yields the smallest int for NaN, infinities and values
    out of range, which is what is written here. *)
Definition to_int (x : float64) : Z :=
  match trunc x with
  | Some z => if GoInt.in_range z then z else GoInt.min_int
  | None => GoInt.min_int
  end.

(** [math.Ceil]: zeros, infinities and NaN are returned unchanged;
    [Ceil] of a value in (-1, 0) is the negative zero. *)
Definition Ceil (x : float64) : float64 :=
  match x with
  | S754_finite s m e =>
      if 0 <=? e then x
      else
        let d := 2 ^ (- e) in
        let z := if s then - (Z.pos m / d)
                 else (Z.pos m + d - 1) / d in
        binary_normalize prec emax z 0 s
  | _ => x
  end.

(** [math.Mod x y]: the exact remainder of [x / y] with the sign of [x];
    NaN when x is infinite or NaN, or y is zero or NaN; x when y is
    infinite. *)
Definition Mod (x y : float64) : float64 :=
  match x, y with
  | S754_nan, _ | _, S754_nan => S754_nan
  | S754_infinity _, _ => S754_nan
  | _, S754_zero _ => S754_nan
  | _, S754_infinity _ => x
  | S754_zero _, S754_finite _ _ _ => x
  | S754_finite sx mx ex, S754_finite _ my ey =>
      let e := Z.min ex ey in
      let r := (Z.pos mx * 2 ^ (ex - e)) mod (Z.pos my * 2 ^ (ey - e)) in
      binary_normalize prec emax (cond_Zopp sx r) e sx
  end.

(** The constants of the scoring rules. *)
Definition c100 : float64 := Eval vm_compute in of_int 100.
Definition c25 : float64 := Eval vm_compute in of_int 25.
Definition c0_2 : float64 := Eval vm_compute in of_ratio false 2 10.

End F64.

Export F64(float64).

(** ** strconv *)

Module strconv.

(** The two kinds of [*NumError] the callers can observe. *)
Inductive NumError := ErrSyntax | ErrRange.

Definition digit_val (c : ascii) : Z := code c - 48.
Definition hex_letter_val (c : ascii) : Z := code (lower c) - 97 + 10.

(** The value of a string of decimal digits; [None] if it is empty or
    holds anything else. *)
Fixpoint digits_value (l : list ascii) (acc : Z) : option Z :=
  match l with
  | [] => Some acc
  | c :: l' => if is_digit c then digits_value l' (acc * 10 + digit_val c)
               else None
  end.

(** [Atoi s]: an optional sign and one or more decimal digits, in the
    range of [int].  [None] stands for [err != nil] (the callers read the
    value only when [err == nil]).  The base is 10, so underscores are
    not accepted. *)
Definition Atoi (s : string) : option Z :=
  let '(neg, body) :=
    match bytes s with
    | "+"%char :: r => (false, r)
    | "-"%char :: r => (true, r)
    | l => (false, l)
    end in
  match body with
  | [] => None
  | _ =>
      match digits_value body 0 with
      | Some n => let v := if neg then - n else n in
                  if GoInt.in_range v then Some v else None
      | None => None
      end
  end.

(** *** ParseFloat *)

Fixpoint commonPrefixLenIgnoreCase (s prefix : list ascii) : nat :=
  match s, prefix with
  | c :: s', p :: prefix' =>
      let c := if (65 <=? code c) && (code c <=? 90)
               then ascii_of_N (N_of_ascii c + 32) else c in
      if byte_eqb c p then S (commonPrefixLenIgnoreCase s' prefix') else O
  | _, _ => O
  end.

(** [special]: the infinities and NaN, with the number of bytes read. *)
Definition special (s : list ascii) : option (float64 * nat) :=
  let inf (neg : bool) (nsign : nat) (r : list ascii) :=
    let n := commonPrefixLenIgnoreCase r (bytes "infinity") in
    let n := if (3 <? n)%nat && (n <? 8)%nat then 3%nat else n in
    if (n =? 3)%nat || (n =? 8)%nat
    then Some (S754_infinity neg, (nsign + n)%nat) else None in
  match s with
  | [] => None
  | c :: r =>
      if byte_eqb c "+" then inf false 1%nat r
      else if byte_eqb c "-" then inf true 1%nat r
      else if byte_eqb c "i" || byte_eqb c "I" then inf false 0%nat s
      else if byte_eqb c "n" || byte_eqb c "N" then
        if (commonPrefixLenIgnoreCase s (bytes "nan") =? 3)%nat
        then Some (S754_nan, 3%nat) else None
      else None
  end.

(** [underscoreOK]: underscores only between digits, or between a base
    prefix and a digit. *)
Inductive saw := SawStart | SawDigit | SawUnderscore | SawOther.

Fixpoint underscore_scan (hex : bool) (l : list ascii) (st : saw) : bool :=
  match l with
  | [] => match st with SawUnderscore => false | _ => true end
  | c :: l' =>
      if is_digit c || (hex && is_hex_letter c)
      then underscore_scan hex l' SawDigit
      else if byte_eqb c "_" then
        match st with
        | SawDigit => underscore_scan hex l' SawUnderscore
        | _ => false
        end
      else
        match st with
        | SawUnderscore => false
        | _ => underscore_scan hex l' SawOther
        end
  end.

Definition underscoreOK (s : list ascii) : bool :=
  let s := match s with
           | c :: r => if byte_eqb c "-" || byte_eqb c "+" then r else s
           | [] => s
           end in
  match s with
  | c0 :: c1 :: r =>
      if byte_eqb c0 "0" &&
         (byte_eqb (lower c1) "b" || byte_eqb (lower c1) "o"
          || byte_eqb (lower c1) "x")
      then underscore_scan (byte_eqb (lower c1) "x") r SawDigit
      else underscore_scan false s SawStart
  | _ => underscore_scan false s SawStart
  end.

(** The digits of the mantissa: [sm_mant] is the integer written by all
    the digits, [sm_frac] the number of digits after the point. *)
Record scanned := {
  sm_mant : Z; sm_frac : Z; sm_sawdot : bool; sm_sawdigits : bool;
  sm_rest : list ascii }.

Fixpoint scan_mantissa (base : Z) (l : list ascii)
    (mant frac : Z) (sawdot sawdigits : bool) : scanned :=
  let stop := {| sm_mant := mant; sm_frac := frac; sm_sawdot := sawdot;
                 sm_sawdigits := sawdigits; sm_rest := l |} in
  match l with
  | [] => stop
  | c :: l' =>
      if byte_eqb c "_" then scan_mantissa base l' mant frac sawdot sawdigits
      else if byte_eqb c "." then
        if sawdot then stop
        else scan_mantissa base l' mant frac true sawdigits
      else if is_digit c then
        scan_mantissa base l' (mant * base + digit_val c)
          (if sawdot then frac + 1 else frac) sawdot true
      else if (base =? 16) && is_hex_letter c then
        scan_mantissa base l' (mant * base + hex_letter_val c)
          (if sawdot then frac + 1 else frac) sawdot true
      else stop
  end.

(** The digits of the exponent (underscores skipped); the accumulation
    stops growing once it has reached 10000. *)
Fixpoint scan_exponent (l : list ascii) (e : Z) : Z * list ascii :=
  match l with
  | c :: l' =>
      if byte_eqb c "_" then scan_exponent l' e
      else if is_digit c then
        scan_exponent l' (if e <? 10000 then e * 10 + digit_val c else e)
      else (e, l)
  | [] => (e, l)
  end.

(** The optional exponent: [Some (e, rest)], with [e] signed, or [None]
    when the syntax is wrong.  A hexadecimal mantissa must have one. *)
Definition read_exponent (hex : bool) (l : list ascii)
    : option (Z * list ascii) :=
  match l with
  | c :: r =>
      if byte_eqb (lower c) (if hex then "p" else "e") then
        let '(esign, r) :=
          match r with
          | "+"%char :: r' => (1, r')
          | "-"%char :: r' => (-1, r')
          | _ => (1, r)
          end in
        match r with
        | d :: _ =>
            if is_digit d
            then let '(e, rest) := scan_exponent r 0 in
                 Some (e * esign, rest)
            else None
        | [] => None
        end
      else if hex then None else Some (0, l)
  | [] => if hex then None else Some (0, l)
  end.

(** [readFloat]: sign, base, mantissa and exponent of a number that
    takes the whole string. *)
Record parsed := {
  pf_neg : bool; pf_hex : bool; pf_mant : Z; pf_exp : Z }.

Definition readFloat (s : list ascii) : option parsed :=
  let '(neg, r) :=
    match s with
    | "+"%char :: r => (false, r)
    | "-"%char :: r => (true, r)
    | _ => (false, s)
    end in
  let '(hex, r) :=
    match r with
    | c0 :: c1 :: c2 :: r' =>
        if byte_eqb c0 "0" && byte_eqb (lower c1) "x"
        then (true, c2 :: r') else (false, r)
    | _ => (false, r)
    end in
  let m := scan_mantissa (if hex then 16 else 10) r 0 0 false false in
  if negb (sm_sawdigits m) then None
  else
    match read_exponent hex (sm_rest m) with
    | Some (e, []) =>
        if underscoreOK s
        then Some {| pf_neg := neg; pf_hex := hex; pf_mant := sm_mant m;
                     pf_exp := if hex then e - 4 * sm_frac m
                               else e - sm_frac m |}
        else None
    | _ => None
    end.

(** The float64 nearest to the number read. *)
Definition float_of_parsed (p : parsed) : float64 :=
  if pf_hex p then
    binary_normalize F64.prec F64.emax
      (cond_Zopp (pf_neg p) (pf_mant p)) (pf_exp p) (pf_neg p)
  else if 0 <=? pf_exp p then
    binary_normalize F64.prec F64.emax
      (cond_Zopp (pf_neg p) (pf_mant p * 10 ^ pf_exp p)) 0 (pf_neg p)
  else F64.of_ratio (pf_neg p) (pf_mant p) (10 ^ (- pf_exp p)).

(** [ParseFloat s 64].  A syntax error comes with the value 0; a number
    too large for float64 comes with an infinity and [ErrRange]. *)
Definition ParseFloat (s : string) : float64 * option NumError :=
  let l := bytes s in
  match special l with
  | Some (v, n) =>
      if (n =? List.length l)%nat then (v, None)
      else (F64.zero, Some ErrSyntax)
  | None =>
      match readFloat l with
      | None => (F64.zero, Some ErrSyntax)
      | Some p =>
          match float_of_parsed p with
          | S754_infinity sg => (S754_infinity sg, Some ErrRange)
          | v => (v, None)
          end
      end
  end.

End strconv.

(** ** strings *)

Module strings.

(** [Split s sep] for a one-byte separator: the pieces between the
    occurrences of [sep]; always at least one piece. *)
Fixpoint Split (s : string) (sep : ascii) : list string :=
  match s with
  | EmptyString => [EmptyString]
  | String c s' =>
      if byte_eqb c sep then EmptyString :: Split s' sep
      else
        match Split s' sep with
        | p :: ps => String c p :: ps
        | [] => [String c EmptyString]
        end
  end.

(** The UTF-8 encodings of the code points with the White_Space
    property ([unicode.IsSpace]): U+0009..U+000D, U+0020, U+0085, U+00A0,
    U+1680, U+2000..U+200A, U+2028, U+2029, U+202F, U+205F, U+3000. *)
Definition is_ascii_space (c : Z) : bool :=
  ((9 <=? c) && (c <=? 13)) || (c =? 32).

Definition is_e2_80_space (c : Z) : bool :=
  ((128 <=? c) && (c <=? 138)) || (c =? 168) || (c =? 169) || (c =? 175).

Definition space_len (l : list ascii) : nat :=
  match map code l with
  | 194 :: 133 :: _ => 2%nat
  | 194 :: 160 :: _ => 2%nat
  | 225 :: 154 :: 128 :: _ => 3%nat
  | 226 :: 128 :: c :: _ => if is_e2_80_space c then 3%nat else 0%nat
  | 226 :: 129 :: 159 :: _ => 3%nat
  | 227 :: 128 :: 128 :: _ => 3%nat
  | c :: _ => if is_ascii_space c then 1%nat else 0%nat
  | [] => 0%nat
  end.

(** The same encodings read backwards, for the right end. *)
Definition space_len_rev (l : list ascii) : nat :=
  match map code l with
  | 133 :: 194 :: _ => 2%nat
  | 160 :: 194 :: _ => 2%nat
  | 128 :: 154 :: 225 :: _ => 3%nat
  | 159 :: 129 :: 226 :: _ => 3%nat
  | 128 :: 128 :: 227 :: _ => 3%nat
  | c :: 128 :: 226 :: _ =>
      if is_e2_80_space c then 3%nat
      else if is_ascii_space c then 1%nat else 0%nat
  | c :: _ => if is_ascii_space c then 1%nat else 0%nat
  | [] => 0%nat
  end.

Fixpoint trim_with (len : list ascii -> nat) (fuel : nat) (l : list ascii)
    : list ascii :=
  match fuel with
  | O => l
  | S fuel' =>
      match len l with
      | O => l
      | n => trim_with len fuel' (drop n l)
      end
  end.

Definition TrimLeft (l : list ascii) : list ascii :=
  trim_with space_len (List.length l) l.

Definition TrimRight (l : list ascii) : list ascii :=
  rev (trim_with space_len_rev (List.length l) (rev l)).

(** [TrimSpace s]: [s] without its leading and trailing white space. *)
Definition TrimSpace (s : string) : string :=
  string_of_list_ascii (TrimRight (TrimLeft (bytes s))).

End strings.

(** ** fmt *)

Module fmt.

Definition decimal (n : Z) : string :=
  NilZero.string_of_uint (N.to_uint (Z.to_N n)).

(** Half-even rounding of [num / den] to an integer, [0 <= num], [0 < den]. *)
Definition round_half_even (num den : Z) : Z :=
  let q := num / den in
  let r := num mod den in
  match 2 * r ?= den with
  | Lt => q
  | Gt => q + 1
  | Eq => if Z.even q then q else q + 1
  end.

(** [Sprintf "%.2f" x]: the exact value of [x] rounded to two decimals. *)
Definition Sprintf_2f (x : float64) : string :=
  match x with
  | S754_nan => "NaN"
  | S754_infinity s => if s then "-Inf" else "+Inf"
  | S754_zero s => if s then "-0.00" else "0.00"
  | S754_finite s m e =>
      let n := if 0 <=? e then Z.pos m * 2 ^ e * 100
               else round_half_even (Z.pos m * 100) (2 ^ (- e)) in
      let frac := n mod 100 in
      (if s then "-" else "") +:+ decimal (n / 100) +:+ "." +:+
      (if frac <? 10 then "0" else "") +:+ decimal frac
  end.

End fmt.

(** ** The receipt service *)

Record Item := { ShortDescription : string; Price : string }.

Record Receipt := {
  Retailer : string;
  Total : string;
  Items : list Item;
  PurchaseDate : string;
  PurchaseTime : string }.

Definition is_empty (s : string) : bool :=
  match s with EmptyString => true | _ => false end.

Definition is_nil {A} (err : option A) : bool :=
  match err with None => true | Some _ => false end.

(** *** Scoring *)

Definition is_alnum (ch : ascii) : bool :=
  let c := code ch in
  ((97 <=? c) && (c <=? 122)) || ((65 <=? c) && (c <=? 90))
  || ((48 <=? c) && (c <=? 57)).

(** The source ranges over the runes of [s].  A byte below 128 is always
    a rune of its own and every other rune is 128 or more, so that the
    letters and digits counted are exactly the bytes that pass the test. *)
Definition count_step (count : Z) (ch : ascii) : Z :=
  if is_alnum ch then GoInt.add count 1 else count.

Definition countAlphanumeric (s : string) : Z :=
  fold_left count_step (bytes s) 0.

(** Rule 5, one iteration of the loop over the items. *)
Definition rule5_step (points : Z) (item : Item) : Z :=
  let trimmedLength :=
    Z.of_nat (String.length (strings.TrimSpace (ShortDescription item))) in
  if GoInt.rem trimmedLength 3 =? 0 then
    match strconv.ParseFloat (Price item) with
    | (price, None) =>
        GoInt.add points (F64.to_int (F64.Ceil (F64.mul price F64.c0_2)))
    | (_, Some _) => points
    end
  else points.

(** A price in range for rule 5: a number that is not negative (so not
    NaN either) and whose product by 0.2, in float64, is below 2^31. *)
Definition price_in_range (s : string) : bool :=
  let price := fst (strconv.ParseFloat s) in
  F64.leb F64.zero price &&
  F64.ltb (F64.mul price F64.c0_2) (F64.of_int (2 ^ 31)).

(** Rule 2 and rule 3, from the parsed total. *)
Definition rule2 (total : float64) (err : option strconv.NumError)
    (points : Z) : Z :=
  if is_nil err && F64.eqb total (F64.of_int (F64.to_int total))
  then GoInt.add points 50 else points.

Definition rule3 (total : float64) (points : Z) : Z :=
  if F64.eqb (F64.Mod (F64.mul total F64.c100) F64.c25) F64.zero
  then GoInt.add points 25 else points.

(** The points after rules 1 to 3. *)
Definition rules_1_3 (receipt : Receipt) : Z :=
  let points := 0 in
  (* Rule 1 *)
  let points := GoInt.add points (countAlphanumeric (Retailer receipt)) in
  let '(total, err) := strconv.ParseFloat (Total receipt) in
  (* Rule 2 *)
  let points := rule2 total err points in
  (* Rule 3 *)
  rule3 total points.

(** Rule 4 and rule 5, from the points so far. *)
Definition rules_4_5 (receipt : Receipt) (points : Z) : Z :=
  let n := Z.of_nat (List.length (Items receipt)) in
  (* Rule 4 *)
  let points :=
    if 0 <? n then GoInt.add points (GoInt.mul (GoInt.div n 2) 5)
    else 0 in
  (* Rule 5 *)
  fold_left rule5_step (Items receipt) points.

(** Rule 6 on the day field, rule 7 on the hour field. *)
Definition rule6 (dayText : string) (points : Z) : Z :=
  match strconv.Atoi dayText with
  | Some day => if negb (GoInt.rem day 2 =? 0) then GoInt.add points 6
                else points
  | None => points
  end.

Definition rule7 (hourText : string) (points : Z) : Z :=
  match strconv.Atoi hourText with
  | Some hour => if (14 <=? hour) && (hour <? 16) then GoInt.add points 10
                 else points
  | None => points
  end.

(** [calculatePoints]; [None] is the panic of an index out of range. *)
Definition calculatePoints (receipt : Receipt) : option Z :=
  let points := rules_1_3 receipt in
  let points := rules_4_5 receipt points in
  match strings.Split (PurchaseDate receipt) "-" !! 2%nat with
  | None => None
  | Some dayText =>
      let points := rule6 dayText points in
      match strings.Split (PurchaseTime receipt) ":" !! 0%nat with
      | None => None
      | Some hourText => Some (rule7 hourText points)
      end
  end.

(** *** Validation and the handlers *)

(** One iteration of the loop over the items.  [item] is the loop
    variable, a copy of the element: the result on success is that copy
    after the assignment to its [Price]. *)
Definition check_item (item : Item) : string + Item :=
  if is_empty (ShortDescription item)
  then inl "Item short description is required"
  else
    match strconv.ParseFloat (Price item) with
    | (price, None) =>
        inr {| ShortDescription := ShortDescription item;
               Price := fmt.Sprintf_2f price |}
    | (_, Some _) => inl "Invalid item price"
    end.

(** The loop: the copy is dropped at the end of each iteration, the
    slice is not written. *)
Fixpoint items_loop (items : list Item) : option string :=
  match items with
  | [] => None
  | item :: rest =>
      match check_item item with
      | inl reason => Some reason
      | inr _ => items_loop rest
      end
  end.

(** The checks of [processReceipts] on the decoded receipt: the reason of
    the first one that fails, or the receipt as it is handed to
    [calculatePoints]. *)
Definition validate (receipt : Receipt) : string + Receipt :=
  if is_empty (Retailer receipt) then inl "Retailer name is required"
  else if is_empty (Total receipt) then inl "Total amount is required"
  else if negb (is_nil (snd (strconv.ParseFloat (Total receipt))))
  then inl "Invalid total amount"
  else if is_empty (PurchaseDate receipt) then inl "Purchase date is required"
  else if is_empty (PurchaseTime receipt) then inl "Purchase time is required"
  else if (List.length (Items receipt) =? 0)%nat
  then inl "Receipt should have at least one item"
  else
    match items_loop (Items receipt) with
    | Some reason => inl reason
    | None => inr receipt
    end.

Inductive Response :=
| BadRequest (error : string)
| StatusOK (id : string)
| Panicked.

(** [processReceipts] after the body has been decoded; [receiptID] is the
    fresh identifier, [receipts] the global map. *)
Definition processReceipts (receiptID : string) (receipts : gmap string Z)
    (receipt : Receipt) : Response * gmap string Z :=
  match validate receipt with
  | inl reason => (BadRequest reason, receipts)
  | inr receipt =>
      match calculatePoints receipt with
      | Some points => (StatusOK receiptID, <[receiptID := points]> receipts)
      | None => (Panicked, receipts)
      end
  end.

Definition getPoints (receipts : gmap string Z) (receiptID : string)
    : option Z :=
  receipts !! receiptID.

(** ** The validator as the specification words it

    The checks in their stated order, each with its reason; validation
    reports the reason of the first check that fails. *)

Module Spec.

Definition parses (s : string) : bool :=
  is_nil (snd (strconv.ParseFloat s)).

Definition reasons : list string :=
  [ "Retailer name is required"; "Total amount is required";
    "Invalid total amount"; "Purchase date is required";
    "Purchase time is required"; "Receipt should have at least one item";
    "Item short description is required"; "Invalid item price" ].

Definition item_checks (item : Item) : list (bool * string) :=
  [ (negb (is_empty (ShortDescription item)),
     "Item short description is required");
    (parses (Price item), "Invalid item price") ].

Definition checks (r : Receipt) : list (bool * string) :=
  [ (negb (is_empty (Retailer r)), "Retailer name is required");
    (negb (is_empty (Total r)), "Total amount is required");
    (parses (Total r), "Invalid total amount");
    (negb (is_empty (PurchaseDate r)), "Purchase date is required");
    (negb (is_empty (PurchaseTime r)), "Purchase time is required");
    (negb (List.length (Items r) =? 0)%nat,
     "Receipt should have at least one item") ]
  ++ flat_map item_checks (Items r).

Fixpoint first_failure (cs : list (bool * string)) : option string :=
  match cs with
  | [] => None
  | (ok, reason) :: cs' => if ok then first_failure cs' else Some reason
  end.

End Spec.

(** ** Receipts used below *)

Definition item (d p : string) : Item :=
  {| ShortDescription := d; Price := p |}.

Definition target_receipt : Receipt :=
  {| Retailer := "Target"; Total := "35.35";
     Items := [ item "Mountain Dew 12PK" "6.49";
                item "Emils Cheese Pizza" "12.25";
                item "Knorr Creamy Chicken" "1.26";
                item "Doritos Nacho Cheese" "3.35";
                item "Klarbrunn 12-PK 12 FL OZ" "12.00" ];
     PurchaseDate := "2022-01-01"; PurchaseTime := "13:01" |}.

(** No item, an odd day, an afternoon hour. *)
Definition no_items_receipt : Receipt :=
  {| Retailer := "Target"; Total := "35.00"; Items := [];
     PurchaseDate := "2022-01-01"; PurchaseTime := "14:30" |}.

(** The date lacks its day field. *)
Definition short_date_receipt : Receipt :=
  {| Retailer := "Target"; Total := "35.35";
     Items := [ item "Mountain Dew 12PK" "6.49" ];
     PurchaseDate := "2022-01"; PurchaseTime := "13:01" |}.

Definition negative_price_receipt : Receipt :=
  {| Retailer := "A"; Total := "1.10"; Items := [ item "abc" "-100" ];
     PurchaseDate := "2022-01-02"; PurchaseTime := "10:00" |}.

Definition negative_total_receipt : Receipt :=
  {| Retailer := "A"; Total := "-5.00"; Items := [ item "ab" "1.00" ];
     PurchaseDate := "2022-01-02"; PurchaseTime := "10:00" |}.

Definition bad_total_receipt : Receipt :=
  {| Retailer := "A"; Total := "five"; Items := [ item "ab" "1.00" ];
     PurchaseDate := "2022-01-02"; PurchaseTime := "10:00" |}.

Definition short_price_receipt : Receipt :=
  {| Retailer := "A"; Total := "6.50"; Items := [ item "ab" "6.5" ];
     PurchaseDate := "2022-01-02"; PurchaseTime := "10:00" |}.

(** The description is three spaces. *)
Definition blank_item : Item := item "   " "10.00".

Definition blank_description_receipt : Receipt :=
  {| Retailer := "A"; Total := "1.10"; Items := [ blank_item ];
     PurchaseDate := "2022-01-02"; PurchaseTime := "10:00" |}.

(** 9007199254741025 cents, which is 25 * 360287970189641. *)
Definition large_quarter_receipt : Receipt :=
  {| Retailer := "A"; Total := "90071992547410.25";
     Items := [ item "ab" "1.00" ];
     PurchaseDate := "2022-01-02"; PurchaseTime := "10:00" |}.

Definition huge_total_receipt : Receipt :=
  {| Retailer := "A"; Total := "1e400"; Items := [ item "ab" "1.00" ];
     PurchaseDate := "2022-01-02"; PurchaseTime := "10:00" |}.

(** ** Quantities in which the further properties are stated *)

(** The points one item earns under rule 5. *)
Definition item_points (item : Item) : Z := rule5_step 0 item.

Definition sum_points (items : list Item) : Z :=
  fold_right (fun item acc => item_points item + acc) 0 items.

(** The exact sum of the seven contributions, before any wrap-around. *)
Definition exact_points (receipt : Receipt) (dayText hourText : string) : Z :=
  let '(total, err) := strconv.ParseFloat (Total receipt) in
  countAlphanumeric (Retailer receipt)
  + rule2 total err 0 + rule3 total 0
  + 5 * (Z.of_nat (List.length (Items receipt)) / 2)
  + sum_points (Items receipt)
  + rule6 dayText 0 + rule7 hourText 0.

(** The number of letters and digits among the bytes of [s]. *)
Definition alnum_bytes (s : string) : nat :=
  List.length (List.filter is_alnum (bytes s)).

(** The number of bytes of [l] equal to [sep]. *)
Fixpoint count_byte (sep : ascii) (l : list ascii) : nat :=
  match l with
  | [] => O
  | c :: l' => if byte_eqb c sep then S (count_byte sep l')
               else count_byte sep l'
  end.

(** An item that passes the two checks of the loop. *)
Definition item_passes (item : Item) : bool :=
  negb (is_empty (ShortDescription item)) && Spec.parses (Price item).

(** The float64 of value [k * 2^x], for an integer [0 < k < 2^53] and an
    exponent in the normal range: the mantissa is [k] shifted to 53 bits. *)
Definition dyadic (k x : Z) : float64 :=
  S754_finite false (Z.to_pos (k * 2 ^ (53 - Zdigits2 k)))
    (x + Zdigits2 k - 53).

(** The cents written by a total of the form [whole.ab]. *)
Definition cents_of (whole : Z) (a b : ascii) : Z :=
  100 * whole + 10 * strconv.digit_val a + strconv.digit_val b.

(** A total worth 7.25, read as 725 cents. *)
Definition quarter_total_receipt : Receipt :=
  {| Retailer := "A"; Total := "7.25"; Items := [ item "ab" "1.00" ];
     PurchaseDate := "2022-01-02"; PurchaseTime := "10:00" |}.

(** The Target receipt with its items in another order. *)
Definition shuffled_target_receipt : Receipt :=
  {| Retailer := "Target"; Total := "35.35";
     Items := [ item "Klarbrunn 12-PK 12 FL OZ" "12.00";
                item "Mountain Dew 12PK" "6.49";
                item "Doritos Nacho Cheese" "3.35";
                item "Emils Cheese Pizza" "12.25";
                item "Knorr Creamy Chicken" "1.26" ];
     PurchaseDate := "2022-01-01"; PurchaseTime := "13:01" |}.

(** ** The score in whole cents *)

Module Cents.

(** The cents of an amount written [whole.ab]: one or more digits, a
    point and two digits. *)
Definition read (s : string) : option Z :=
  match rev (bytes s) with
  | b :: a :: dot :: w =>
      if byte_eqb dot "." && is_digit a && is_digit b
         && negb (Nat.eqb (List.length w) 0)
      then option_map (fun n => cents_of n a b)
             (strconv.digits_value (rev w) 0)
      else None
  | _ => None
  end.

(** Amounts of that form below 2^40 cents. *)
Definition ordinary (s : string) : bool :=
  match read s with Some c => c <? 2 ^ 40 | None => false end.

(** Rule 5 on the cents of the price. *)
Definition item_points (it : Item) : Z :=
  match read (Price it) with
  | Some c =>
      if Z.of_nat (String.length (strings.TrimSpace (ShortDescription it)))
         mod 3 =? 0
      then (c + 499) / 500 else 0
  | None => 0
  end.

(** The seven rules on the cents of the total and of the prices. *)
Definition points (r : Receipt) (dayText hourText : string) : Z :=
  match read (Total r) with
  | Some c =>
      Z.of_nat (alnum_bytes (Retailer r))
      + (if c mod 100 =? 0 then 50 else 0)
      + (if c mod 25 =? 0 then 25 else 0)
      + 5 * (Z.of_nat (List.length (Items r)) / 2)
      + fold_right (fun it acc => item_points it + acc) 0 (Items r)
      + rule6 dayText 0 + rule7 hourText 0
  | None => 0
  end.

End Cents.

(** * Properties *)

(** ** 64-bit arithmetic *)

Section GoIntFacts.

Import GoInt.

Lemma wrap_range (z : Z) : min_int <= wrap z <= max_int.
Proof.
  unfold wrap, min_int, max_int.
  pose proof (Z.mod_pos_bound (z + 2 ^ 63) (2 ^ 64)). lia.
Qed.

Lemma wrap_small (z : Z) : min_int <= z <= max_int -> wrap z = z.
Proof.
  unfold wrap, min_int, max_int. intros H.
  rewrite Z.mod_small by lia. lia.
Qed.

Lemma add_small (a b : Z) :
  min_int <= a + b <= max_int -> add a b = a + b.
Proof. apply wrap_small. Qed.

Lemma add_range (a b : Z) : min_int <= add a b <= max_int.
Proof. apply wrap_range. Qed.

End GoIntFacts.

(** ** Pieces of a split string *)

Lemma Split_cons (s : string) (sep : ascii) :
  exists p ps, strings.Split s sep = p :: ps.
Proof.
  destruct s as [|c s]; simpl; [eauto|].
  destruct (byte_eqb c sep); [eauto|].
  destruct (strings.Split s sep); eauto.
Qed.

Lemma Split_head (s : string) (sep : ascii) :
  exists p, strings.Split s sep !! 0%nat = Some p.
Proof. destruct (Split_cons s sep) as (p & ps & ->). eauto. Qed.

(** ** Counting *)

Lemma bytes_length (s : string) : List.length (bytes s) = String.length s.
Proof.
  unfold bytes. induction s as [|c s IH]; simpl; [reflexivity|].
  now rewrite IH.
Qed.

Lemma countAlphanumeric_range (s : string) :
  GoInt.min_int <= countAlphanumeric s <= GoInt.max_int.
Proof.
  unfold countAlphanumeric.
  assert (H : forall l acc, GoInt.min_int <= acc <= GoInt.max_int ->
    GoInt.min_int <= fold_left count_step l acc <= GoInt.max_int).
  { induction l as [|ch l IH]; intros acc Hacc; simpl; [exact Hacc|].
    apply IH. unfold count_step.
    destruct (is_alnum ch); [apply add_range|exact Hacc]. }
  apply H. unfold GoInt.min_int, GoInt.max_int. lia.
Qed.

(** A string that fits in memory is shorter than 2^63 bytes; the count is
    then between 0 and the length. *)
Lemma countAlphanumeric_bound (s : string) :
  Z.of_nat (String.length s) <= GoInt.max_int ->
  0 <= countAlphanumeric s <= Z.of_nat (String.length s).
Proof.
  unfold countAlphanumeric.
  assert (H : forall l acc, 0 <= acc ->
    acc + Z.of_nat (List.length l) <= GoInt.max_int ->
    0 <= fold_left count_step l acc <= acc + Z.of_nat (List.length l)).
  { induction l as [|ch l IH]; intros acc H0 Hb; simpl in *; [lia|].
    assert (Hs : 0 <= count_step acc ch <= acc + 1).
    { unfold count_step. destruct (is_alnum ch); [|lia].
      rewrite add_small; unfold GoInt.min_int, GoInt.max_int in *; lia. }
    specialize (IH (count_step acc ch)). lia. }
  intros Hlen. specialize (H (bytes s) 0).
  rewrite bytes_length in H. lia.
Qed.

Lemma rule1_points (s : string) :
  GoInt.add 0 (countAlphanumeric s) = countAlphanumeric s.
Proof.
  apply add_small, countAlphanumeric_range.
Qed.

(** ** Rules 6 and 7 *)

Lemma rule6_cases (dayText : string) (points : Z) :
  rule6 dayText points = points \/ rule6 dayText points = GoInt.add points 6.
Proof.
  unfold rule6. destruct (strconv.Atoi dayText) as [day|]; [|now left].
  destruct (negb (GoInt.rem day 2 =? 0)); [now right|now left].
Qed.

Lemma rule7_cases (hourText : string) (points : Z) :
  rule7 hourText points = points \/
  rule7 hourText points = GoInt.add points 10.
Proof.
  unfold rule7. destruct (strconv.Atoi hourText) as [hour|]; [|now left].
  destruct ((14 <=? hour) && (hour <? 16)); [now right|now left].
Qed.

(** ** A receipt without items *)

(** C1, as stated, fails: without items the points of rules 1 to 3 are
    reset, but rules 6 and 7 run after the reset.  The receipt below has no
    item, an odd day and an afternoon hour, and scores 16. *)
Lemma no_items_receipt_scores_16 :
  Items no_items_receipt = [] /\
  calculatePoints no_items_receipt = Some 16 /\
  calculatePoints no_items_receipt <> Some 0.
Proof.
  assert (H : calculatePoints no_items_receipt = Some 16)
    by (vm_compute; reflexivity).
  split; [reflexivity|]. split; [exact H|]. rewrite H. discriminate.
Qed.

(** C1 (amended): for every receipt without items whose date has a third
    dash-separated field, the score is what rules 6 and 7 add to 0: the
    retailer and the total contribute nothing, and the score is 0, 6, 10 or
    16. *)
Theorem no_items_score (r : Receipt) (dayText : string) :
  Items r = [] ->
  strings.Split (PurchaseDate r) "-" !! 2%nat = Some dayText ->
  exists hourText v,
    strings.Split (PurchaseTime r) ":" !! 0%nat = Some hourText /\
    calculatePoints r = Some v /\
    v = rule7 hourText (rule6 dayText 0) /\
    (v = 0 \/ v = 6 \/ v = 10 \/ v = 16).
Proof.
  intros Hitems Hday.
  destruct (Split_head (PurchaseTime r) ":") as [hourText Hhour].
  exists hourText, (rule7 hourText (rule6 dayText 0)).
  split; [exact Hhour|]. split.
  - unfold calculatePoints, rules_4_5. rewrite Hitems, Hday, Hhour.
    reflexivity.
  - split; [reflexivity|].
    destruct (rule6_cases dayText 0) as [-> | ->];
      destruct (rule7_cases hourText 0) as [E | E];
      destruct (rule7_cases hourText (GoInt.add 0 6)) as [E' | E'];
      rewrite ?E, ?E'; vm_compute; tauto.
Qed.

Lemma no_items_score_witness :
  exists hourText v,
    strings.Split (PurchaseTime no_items_receipt) ":" !! 0%nat
      = Some hourText /\
    calculatePoints no_items_receipt = Some v /\
    v = rule7 hourText (rule6 "01" 0) /\
    (v = 0 \/ v = 6 \/ v = 10 \/ v = 16).
Proof. apply (no_items_score no_items_receipt "01"); reflexivity. Defined.

(** ** A date without its day field *)

(** C2: the code panics.  [strings.Split] returns fewer than three pieces
    and the index 2 is out of range: [calculatePoints] returns nothing at
    all, for any receipt with such a date. *)
Theorem short_date_panics (r : Receipt) :
  (List.length (strings.Split (PurchaseDate r) "-") < 3)%nat ->
  calculatePoints r = None.
Proof.
  intros Hlen. unfold calculatePoints.
  destruct (strings.Split (PurchaseDate r) "-" !! 2%nat) as [d|] eqn:E;
    [|reflexivity].
  apply lookup_lt_Some in E. lia.
Qed.

Lemma short_date_panics_witness :
  strings.Split "2022-01" "-" = ["2022"; "01"] /\
  calculatePoints short_date_receipt = None.
Proof.
  split; [reflexivity|].
  apply (short_date_panics short_date_receipt). vm_compute. lia.
Defined.

(** The handler accepts the receipt and then panics in the scoring: no
    identifier is answered and nothing is stored. *)
Lemma short_date_request (id : string) (receipts : gmap string Z) :
  validate short_date_receipt = inr short_date_receipt /\
  processReceipts id receipts short_date_receipt = (Panicked, receipts).
Proof. split; reflexivity. Qed.

(** ** The example of the specification *)

(** C7: the Target receipt scores 28. *)
Theorem target_receipt_points : calculatePoints target_receipt = Some 28.
Proof. vm_compute. reflexivity. Qed.

Lemma target_receipt_request (id : string) (receipts : gmap string Z) :
  processReceipts id receipts target_receipt
  = (StatusOK id, <[id := 28]> receipts).
Proof.
  unfold processReceipts.
  replace (validate target_receipt) with
    (inr target_receipt : string + Receipt) by (vm_compute; reflexivity).
  now rewrite target_receipt_points.
Qed.

(** ** Validation *)

Lemma items_loop_reason (items : list Item) (reason : string) :
  items_loop items = Some reason ->
  reason = "Item short description is required" \/
  reason = "Invalid item price".
Proof.
  induction items as [|it items IH]; simpl; [discriminate|].
  unfold check_item.
  destruct (is_empty (ShortDescription it)); [intros [= <-]; now left|].
  destruct (strconv.ParseFloat (Price it)) as [price [err|]];
    [intros [= <-]; now right|exact IH].
Qed.

(** The loop over the items agrees with the checks of the specification,
    taken item by item. *)
Lemma items_loop_first_failure (items : list Item) :
  items_loop items = Spec.first_failure (flat_map Spec.item_checks items).
Proof.
  induction items as [|it items IH]; simpl; [reflexivity|].
  unfold check_item, Spec.parses.
  destruct (is_empty (ShortDescription it)); simpl; [reflexivity|].
  destruct (strconv.ParseFloat (Price it)) as [price [err|]]; simpl;
    [reflexivity|exact IH].
Qed.

(** A receipt that passes is handed on as it came. *)
Lemma validate_inr (r r' : Receipt) : validate r = inr r' -> r' = r.
Proof.
  unfold validate.
  repeat match goal with
         | |- context [if ?b then _ else _] => destruct b; [discriminate|]
         end.
  destruct (items_loop (Items r)); [discriminate|]. now intros [= <-].
Qed.

(** C8: validation is the first failing check of the specification's
    list, in its order (retailer, total present, total parses, date, time,
    items present, then item by item the description and the price); a
    rejection carries one of the eight reasons, and a receipt is accepted
    exactly when no check fails. *)
Theorem validate_first_failure (r : Receipt) :
  match validate r with
  | inl reason =>
      Spec.first_failure (Spec.checks r) = Some reason /\
      In reason Spec.reasons
  | inr r' => Spec.first_failure (Spec.checks r) = None /\ r' = r
  end.
Proof.
  unfold validate, Spec.checks, Spec.parses. simpl.
  destruct (is_empty (Retailer r)); simpl; [split; [reflexivity|tauto]|].
  destruct (is_empty (Total r)); simpl; [split; [reflexivity|tauto]|].
  destruct (is_nil (snd (strconv.ParseFloat (Total r)))); simpl;
    [|split; [reflexivity|tauto]].
  destruct (is_empty (PurchaseDate r)); simpl; [split; [reflexivity|tauto]|].
  destruct (is_empty (PurchaseTime r)); simpl; [split; [reflexivity|tauto]|].
  destruct (List.length (Items r) =? 0)%nat; simpl;
    [split; [reflexivity|tauto]|].
  rewrite <- items_loop_first_failure.
  destruct (items_loop (Items r)) as [reason|] eqn:E; [|now split].
  split; [reflexivity|].
  destruct (items_loop_reason _ _ E) as [-> | ->]; simpl; tauto.
Qed.

(** C4, as stated, fails: the code checks that the total and the prices
    parse, not their sign.  The total "-5.00" parses as a negative number
    and the receipt is accepted; so is the one with the price "-100". *)
Lemma negative_amounts_accepted :
  (exists total, strconv.ParseFloat "-5.00" = (total, None) /\
                 F64.ltb total F64.zero = true) /\
  validate negative_total_receipt = inr negative_total_receipt /\
  (exists price, strconv.ParseFloat "-100" = (price, None) /\
                 F64.ltb price F64.zero = true) /\
  validate negative_price_receipt = inr negative_price_receipt.
Proof.
  split; [eexists; split; vm_compute; reflexivity|].
  split; [vm_compute; reflexivity|].
  split; [eexists; split; vm_compute; reflexivity|].
  vm_compute; reflexivity.
Qed.

(** C4 (amended): with a retailer and a non-empty total, validation
    rejects with "Invalid total amount" exactly when [strconv.ParseFloat]
    reports an error on the total, whatever the sign of a total that
    parses; and when the checks before an item pass and its description is
    not empty, a price on which [strconv.ParseFloat] reports an error is
    rejected with "Invalid item price". *)
Theorem unparsable_amounts_rejected (r : Receipt) :
  is_empty (Retailer r) = false ->
  is_empty (Total r) = false ->
  (validate r = inl "Invalid total amount" <->
   snd (strconv.ParseFloat (Total r)) <> None) /\
  (forall pre it post,
     snd (strconv.ParseFloat (Total r)) = None ->
     is_empty (PurchaseDate r) = false ->
     is_empty (PurchaseTime r) = false ->
     Items r = pre ++ it :: post ->
     items_loop pre = None ->
     is_empty (ShortDescription it) = false ->
     snd (strconv.ParseFloat (Price it)) <> None ->
     validate r = inl "Invalid item price").
Proof.
  intros Hret Htot. split.
  - pose proof (validate_first_failure r) as H.
    unfold Spec.checks, Spec.parses in H. simpl in H.
    rewrite Hret, Htot in H. simpl in H.
    destruct (snd (strconv.ParseFloat (Total r))) as [err|] eqn:E;
      simpl in H.
    + destruct (validate r) as [reason|r'];
        destruct H as [H _]; [|discriminate].
      injection H as <-. split; [discriminate|reflexivity].
    + split; [|congruence]. intros Hv. exfalso. rewrite Hv in H.
      destruct H as [H _].
      repeat match type of H with
             | (if ?b then _ else _) = _ =>
                 destruct b; simpl in H; [|discriminate]
             end.
      rewrite <- items_loop_first_failure in H.
      apply items_loop_reason in H. destruct H; discriminate.
  - intros pre it post Hp Hd Ht Hitems Hpre Hdesc Hprice.
    unfold validate. rewrite Hret, Htot, Hp, Hd, Ht, Hitems. simpl.
    rewrite length_app. simpl.
    replace (List.length pre + S (List.length post) =? 0)%nat with false
      by (symmetry; apply Nat.eqb_neq; lia).
    assert (Hloop : items_loop (pre ++ it :: post)
                    = Some "Invalid item price").
    { clear Hitems. induction pre as [|p pre IH]; simpl in *.
      - unfold check_item. rewrite Hdesc.
        destruct (strconv.ParseFloat (Price it)) as [price [err|]];
          [reflexivity|now elim Hprice].
      - destruct (check_item p); [discriminate|]. now apply IH. }
    now rewrite Hloop.
Qed.

Lemma unparsable_amounts_rejected_witness :
  (validate bad_total_receipt = inl "Invalid total amount" <->
   snd (strconv.ParseFloat (Total bad_total_receipt)) <> None) /\
  (forall pre it post,
     snd (strconv.ParseFloat (Total bad_total_receipt)) = None ->
     is_empty (PurchaseDate bad_total_receipt) = false ->
     is_empty (PurchaseTime bad_total_receipt) = false ->
     Items bad_total_receipt = pre ++ it :: post ->
     items_loop pre = None ->
     is_empty (ShortDescription it) = false ->
     snd (strconv.ParseFloat (Price it)) <> None ->
     validate bad_total_receipt = inl "Invalid item price").
Proof. apply (unparsable_amounts_rejected bad_total_receipt); reflexivity. Defined.

(** ** The price text *)

(** C5: the code does not normalize.  The loop formats the price into its
    own copy of the item; the receipt that reaches [calculatePoints] still
    reads "6.5", where the formatted text is "6.50". *)
Theorem price_text_not_normalized :
  check_item (item "ab" "6.5") = inr (item "ab" "6.50") /\
  validate short_price_receipt = inr short_price_receipt /\
  map Price (Items short_price_receipt) = ["6.5"].
Proof. repeat split; vm_compute; reflexivity. Qed.

(** ** A total that does not parse *)

Lemma ParseFloat_error (s : string) (v : float64) (err : strconv.NumError) :
  strconv.ParseFloat s = (v, Some err) ->
  match err with
  | strconv.ErrSyntax => v = F64.zero
  | strconv.ErrRange => exists sg, v = S754_infinity sg
  end.
Proof.
  unfold strconv.ParseFloat.
  destruct (strconv.special (bytes s)) as [[v0 n]|].
  - destruct (n =? List.length (bytes s))%nat; intros [= <- <-]; reflexivity.
  - destruct (strconv.readFloat (bytes s)) as [p|];
      [|intros [= <- <-]; reflexivity].
    destruct (strconv.float_of_parsed p) as [sg|sg| |sg m e];
      intros [= <- <-]. eauto.
Qed.

(** C10, as stated, fails: "1e400" does not parse ([ErrRange]), but the
    value that comes with the error is +Inf, not 0: [math.Mod] yields NaN
    and rule 3 adds nothing. *)
Lemma out_of_range_total_scores_no_quarter :
  strconv.ParseFloat "1e400" = (S754_infinity false, Some strconv.ErrRange) /\
  validate huge_total_receipt = inl "Invalid total amount" /\
  rules_1_3 huge_total_receipt = countAlphanumeric "A" /\
  calculatePoints huge_total_receipt = Some 1.
Proof. repeat split; vm_compute; reflexivity. Qed.

(** C10 (amended): when [strconv.ParseFloat] reports a syntax error on the
    total, the value is 0: rule 2 adds nothing and rule 3 adds 25.  When it
    reports a range error, the value is an infinity and neither rule adds
    anything. *)
Theorem unparsed_total_rules (r : Receipt) (total : float64)
    (err : strconv.NumError) :
  strconv.ParseFloat (Total r) = (total, Some err) ->
  (forall points, rule2 total (Some err) points = points) /\
  (forall points,
     rule3 total points =
     match err with
     | strconv.ErrSyntax => GoInt.add points 25
     | strconv.ErrRange => points
     end) /\
  rules_1_3 r =
  match err with
  | strconv.ErrSyntax => GoInt.add (countAlphanumeric (Retailer r)) 25
  | strconv.ErrRange => countAlphanumeric (Retailer r)
  end.
Proof.
  intros Hparse.
  assert (H3 : forall points,
     rule3 total points =
     match err with
     | strconv.ErrSyntax => GoInt.add points 25
     | strconv.ErrRange => points
     end).
  { pose proof (ParseFloat_error _ _ _ Hparse) as Hv.
    destruct err; [subst total; reflexivity|].
    destruct Hv as [sg ->]. destruct sg; reflexivity. }
  split; [reflexivity|]. split; [exact H3|].
  unfold rules_1_3. rewrite Hparse, rule1_points.
  unfold rule2 at 1. simpl. apply H3.
Qed.

Lemma unparsed_total_rules_witness :
  (forall points, rule2 F64.zero (Some strconv.ErrSyntax) points = points) /\
  (forall points, rule3 F64.zero points = GoInt.add points 25) /\
  rules_1_3 bad_total_receipt
  = GoInt.add (countAlphanumeric (Retailer bad_total_receipt)) 25.
Proof.
  apply (unparsed_total_rules bad_total_receipt F64.zero strconv.ErrSyntax).
  reflexivity.
Defined.

(** ** The quarter rule *)

(** C9: the code misses a multiple of 0.25.  The total 90071992547410.25
    is 9007199254741025 cents, 25 times 360287970189641.  It is read
    exactly, but its product by 100 does not fit in 53 bits and is rounded
    to 9007199254741024, whose remainder by 25 is 24: rule 3 adds nothing.
    For the total 90071992547410.00 it adds 25. *)
Theorem large_quarter_total_misses_rule3 :
  let total := fst (strconv.ParseFloat "90071992547410.25") in
  9007199254741025 mod 25 = 0 /\
  strconv.ParseFloat "90071992547410.25"
    = (S754_finite false (360287970189641 * 2 ^ 4) (- 6), None) /\
  F64.mul total F64.c100 = F64.of_int 9007199254741024 /\
  F64.Mod (F64.mul total F64.c100) F64.c25 = F64.of_int 24 /\
  rule3 total 0 = 0 /\
  rule3 (fst (strconv.ParseFloat "90071992547410.00")) 0 = 25 /\
  validate large_quarter_receipt = inr large_quarter_receipt /\
  calculatePoints large_quarter_receipt = Some 1.
Proof. repeat split; vm_compute; reflexivity. Qed.

(** ** The description rule *)

Lemma trim_blank (len : list ascii -> nat) (l : list ascii) :
  (forall c l', In c l -> len (c :: l') = 1%nat) ->
  forall fuel, (List.length l <= fuel)%nat -> strings.trim_with len fuel l = [].
Proof.
  intros Hlen fuel. revert l Hlen.
  induction fuel as [|fuel IH]; intros l Hlen Hfuel.
  - destruct l; [reflexivity|simpl in Hfuel; lia].
  - destruct l as [|c l].
    { simpl. destruct (len []); [reflexivity|].
      apply IH; [intros c l' []|simpl; lia]. }
    simpl. rewrite (Hlen c l) by (now left). simpl. rewrite drop_0.
    apply IH; [|simpl in Hfuel; lia].
    intros c' l' Hin. apply Hlen. now right.
Qed.

Lemma space_len_ascii (c : ascii) (l : list ascii) :
  strings.is_ascii_space (code c) = true ->
  strings.space_len (c :: l) = 1%nat.
Proof.
  destruct c as [[] [] [] [] [] [] [] []]; try discriminate; intros _;
    reflexivity.
Qed.

(** A description made of ASCII white space only is trimmed to the empty
    string. *)
Lemma TrimSpace_blank (s : string) :
  Forall (fun c => strings.is_ascii_space (code c) = true) (bytes s) ->
  strings.TrimSpace s = "".
Proof.
  intros Hall. unfold strings.TrimSpace, strings.TrimLeft.
  rewrite (trim_blank strings.space_len (bytes s)); [reflexivity| |lia].
  intros c l' Hin. apply space_len_ascii.
  rewrite Forall_forall in Hall. apply Hall. now apply list_elem_of_In.
Qed.

(** C6, as stated, fails: the code tests [trimmedLength % 3 == 0] and 0
    passes the test.  The item whose description is three spaces, at the
    price 10.00, earns 2 points; the receipt scores 3 where it scores 1
    with the description "ab". *)
Lemma blank_description_scores :
  strings.TrimSpace (ShortDescription blank_item) = "" /\
  rule5_step 0 blank_item = 2 /\
  validate blank_description_receipt = inr blank_description_receipt /\
  calculatePoints blank_description_receipt = Some 3 /\
  calculatePoints
    {| Retailer := "A"; Total := "1.10"; Items := [ item "ab" "10.00" ];
       PurchaseDate := "2022-01-02"; PurchaseTime := "10:00" |} = Some 1.
Proof. repeat split; vm_compute; reflexivity. Qed.

(** C6 (amended): for an item whose price parses, rule 5 adds
    [int(math.Ceil(price * 0.2))], computed in float64, when the byte
    length of the trimmed description is a multiple of 3, zero included,
    and nothing otherwise; so an item whose description is white space
    only does earn these points. *)
Theorem rule5_adds (items : list Item) (it : Item) (points : Z)
    (price : float64) :
  strconv.ParseFloat (Price it) = (price, None) ->
  let earned := F64.to_int (F64.Ceil (F64.mul price F64.c0_2)) in
  let n := Z.of_nat (String.length (strings.TrimSpace (ShortDescription it))) in
  fold_left rule5_step (items ++ [it]) points =
    (if n mod 3 =? 0
     then GoInt.add (fold_left rule5_step items points) earned
     else fold_left rule5_step items points) /\
  (Forall (fun c => strings.is_ascii_space (code c) = true)
     (bytes (ShortDescription it)) ->
   fold_left rule5_step (items ++ [it]) points =
     GoInt.add (fold_left rule5_step items points) earned).
Proof.
  intros Hparse earned n.
  assert (Hstep : forall p, rule5_step p it =
            if n mod 3 =? 0 then GoInt.add p earned else p).
  { intros p. unfold rule5_step, GoInt.rem. fold n.
    rewrite Z.rem_mod_nonneg by lia. rewrite Hparse. reflexivity. }
  rewrite fold_left_app. simpl. rewrite Hstep. split; [reflexivity|].
  intros Hblank. subst n. rewrite (TrimSpace_blank _ Hblank). reflexivity.
Qed.

Lemma rule5_adds_witness :
  fold_left rule5_step ([] ++ [blank_item]) 0 =
    (if Z.of_nat (String.length
          (strings.TrimSpace (ShortDescription blank_item))) mod 3 =? 0
     then GoInt.add (fold_left rule5_step [] 0) 2
     else fold_left rule5_step [] 0) /\
  (Forall (fun c => strings.is_ascii_space (code c) = true)
     (bytes (ShortDescription blank_item)) ->
   fold_left rule5_step ([] ++ [blank_item]) 0 =
     GoInt.add (fold_left rule5_step [] 0) 2).
Proof.
  apply (rule5_adds [] blank_item 0 (F64.of_int 10)). reflexivity.
Defined.

(** ** Facts on the rounding of float64 *)

Section FloatFacts.

Lemma digits2_pos_size (p : positive) : digits2_pos p = Pos.size p.
Proof. induction p; simpl; congruence. Qed.

Lemma digits2_upper (p : positive) : Z.pos p < 2 ^ Z.pos (digits2_pos p).
Proof.
  rewrite digits2_pos_size. pose proof (Pos.size_gt p) as H.
  apply Pos2Z.pos_lt_pos in H. now rewrite Pos2Z.inj_pow in H.
Qed.

Lemma digits2_lower (p : positive) : 2 ^ Z.pos (digits2_pos p) <= 2 * Z.pos p.
Proof.
  rewrite digits2_pos_size. pose proof (Pos.size_le p) as H.
  apply Pos2Z.pos_le_pos in H. now rewrite Pos2Z.inj_pow in H.
Qed.

Lemma shr_1_m (mrs : shr_record) :
  0 <= shr_m mrs -> shr_m (shr_1 mrs) = shr_m mrs / 2.
Proof.
  destruct mrs as [m r s]. simpl. intros Hm.
  destruct m as [|[p|p|]|p]; simpl; try reflexivity; try lia.
  - apply Z.div_unique with 1; lia.
  - apply Z.div_unique with 0; lia.
Qed.

Lemma iter_shr_m (n : positive) (mrs : shr_record) :
  0 <= shr_m mrs ->
  shr_m (SpecFloat.iter_pos shr_1 n mrs) = shr_m mrs / 2 ^ Z.pos n.
Proof.
  revert mrs. induction n as [n IH|n IH|]; intros mrs Hm; simpl.
  - assert (H1 : 0 <= shr_m (shr_1 mrs))
      by (rewrite shr_1_m by assumption; apply Z.div_pos; lia).
    assert (H2 : 0 <= shr_m (SpecFloat.iter_pos shr_1 n (shr_1 mrs)))
      by (rewrite IH by assumption; apply Z.div_pos; lia).
    rewrite IH, IH, shr_1_m by assumption.
    rewrite !Z.div_div by lia. f_equal.
    replace (Z.pos n~1) with (1 + Z.pos n + Z.pos n) by lia.
    rewrite !Z.pow_add_r by lia. lia.
  - assert (H2 : 0 <= shr_m (SpecFloat.iter_pos shr_1 n mrs))
      by (rewrite IH by assumption; apply Z.div_pos; lia).
    rewrite IH, IH by assumption.
    rewrite !Z.div_div by lia. f_equal.
    replace (Z.pos n~0) with (Z.pos n + Z.pos n) by lia.
    rewrite !Z.pow_add_r by lia. lia.
  - now apply shr_1_m.
Qed.

Lemma shr_record_of_loc_m (m : Z) (l : location) :
  shr_m (shr_record_of_loc m l) = m.
Proof. destruct l as [|[]]; reflexivity. Qed.

Lemma shr_fexp_m_bound (m e : Z) (l : location) :
  0 <= m ->
  0 <= shr_m (fst (shr_fexp F64.prec F64.emax m e l)) < 2 ^ 53.
Proof.
  intros Hm. unfold shr_fexp, shr.
  pose proof (shr_record_of_loc_m m l) as Hrec.
  assert (Hd : m < 2 ^ Zdigits2 m).
  { destruct m as [|p|p]; simpl; [lia|apply digits2_upper|lia]. }
  assert (Hd0 : 0 <= Zdigits2 m) by (destruct m; simpl; lia).
  assert (Hn : Zdigits2 m - 53 <=
               fexp F64.prec F64.emax (Zdigits2 m + e) - e).
  { unfold fexp, emin, F64.prec, F64.emax. lia. }
  destruct (fexp F64.prec F64.emax (Zdigits2 m + e) - e) as [|n|n] eqn:En;
    simpl.
  - rewrite Hrec. split; [lia|].
    apply Z.lt_le_trans with (1 := Hd). apply Z.pow_le_mono_r; lia.
  - rewrite iter_shr_m, Hrec by (rewrite Hrec; lia).
    split; [apply Z.div_pos; lia|].
    apply Z.div_lt_upper_bound; [lia|].
    apply Z.lt_le_trans with (1 := Hd).
    rewrite <- Z.pow_add_r by lia. apply Z.pow_le_mono_r; lia.
  - rewrite Hrec. split; [lia|].
    apply Z.lt_le_trans with (1 := Hd). apply Z.pow_le_mono_r; lia.
Qed.

Lemma round_nearest_even_nonneg (m : Z) (l : location) :
  0 <= m -> 0 <= round_nearest_even m l.
Proof.
  intros Hm. destruct l as [|[]]; simpl; try lia.
  destruct (Z.even m); lia.
Qed.

(** The result of a rounding keeps the sign it was given and has a
    mantissa of at most 53 bits. *)
Lemma binary_round_aux_shape (s : bool) (m e : Z) (l : location) :
  0 <= m ->
  match binary_round_aux F64.prec F64.emax s m e l with
  | S754_zero s' | S754_infinity s' => s' = s
  | S754_finite s' m' _ => s' = s /\ Z.pos m' < 2 ^ 53
  | S754_nan => False
  end.
Proof.
  intros Hm. unfold binary_round_aux.
  pose proof (shr_fexp_m_bound m e l Hm) as H1.
  destruct (shr_fexp F64.prec F64.emax m e l) as [mrs' e']. simpl in H1.
  pose proof (shr_fexp_m_bound
    (round_nearest_even (shr_m mrs') (loc_of_shr_record mrs')) e' loc_Exact
    (round_nearest_even_nonneg _ _ (proj1 H1))) as H2.
  destruct (shr_fexp F64.prec F64.emax _ e' loc_Exact) as [mrs'' e''].
  simpl in H2.
  destruct (shr_m mrs'') as [|m'|m']; [reflexivity| |lia].
  destruct (e'' <=? F64.emax - F64.prec); [|reflexivity].
  split; [reflexivity|lia].
Qed.

Lemma iter_xO_digits (p k : positive) :
  digits2_pos (Pos.iter xO p k) = (digits2_pos p + k)%positive.
Proof.
  induction k as [|k IH] using Pos.peano_ind.
  - simpl. lia.
  - rewrite Pos.iter_succ. simpl. rewrite IH. lia.
Qed.

Lemma iter_xO_value (p k : positive) :
  Z.pos (Pos.iter xO p k) = Z.pos p * 2 ^ Z.pos k.
Proof.
  induction k as [|k IH] using Pos.peano_ind.
  - simpl. lia.
  - rewrite Pos.iter_succ, Pos2Z.inj_xO, IH, Pos2Z.inj_succ, Z.pow_succ_r
      by lia. lia.
Qed.

(** An integer of at most 53 bits is converted exactly. *)
Lemma of_int_exact (z : Z) :
  0 < z < 2 ^ 53 ->
  exists m e, F64.of_int z = S754_finite false m e /\
              e <= 0 /\ Z.pos m = z * 2 ^ (- e).
Proof.
  intros Hz. destruct z as [|p|p]; try lia.
  unfold F64.of_int, binary_normalize, binary_round.
  pose proof (digits2_upper p) as Hu. pose proof (digits2_lower p) as Hl.
  set (d := Z.pos (digits2_pos p)) in *.
  assert (Hd : 1 <= d <= 53).
  { split; [unfold d; lia|].
    destruct (Z_le_gt_dec d 53) as [|Hgt]; [assumption|exfalso].
    assert (2 ^ 54 <= 2 ^ d) by (apply Z.pow_le_mono_r; lia). lia. }
  assert (Hf : fexp F64.prec F64.emax (d + 0) = d - 53).
  { unfold fexp, emin, F64.prec, F64.emax. lia. }
  rewrite Hf. unfold shl_align.
  assert (Hround : forall mz ez, Z.pos (digits2_pos mz) = 53 ->
            -52 <= ez <= 0 ->
            binary_round_aux F64.prec F64.emax false (Z.pos mz) ez loc_Exact
            = S754_finite false mz ez).
  { intros mz ez Hdig Hez. unfold binary_round_aux, shr_fexp. simpl Zdigits2.
    rewrite Hdig.
    assert (Hf0 : fexp F64.prec F64.emax (53 + ez) - ez = 0)
      by (unfold fexp, emin, F64.prec, F64.emax; lia).
    rewrite Hf0. simpl. rewrite Hdig, Hf0. simpl.
    replace (ez <=? F64.emax - F64.prec) with true; [reflexivity|].
    symmetry. apply Z.leb_le. unfold F64.emax, F64.prec. lia. }
  destruct (d - 53 - 0) as [|k|k] eqn:Ek; try lia.
  - exists p, 0. rewrite Hround by (fold d; lia).
    split; [reflexivity|]. split; [lia|]. simpl. lia.
  - exists (Pos.iter xO p k), (d - 53).
    rewrite Hround; [|rewrite iter_xO_digits, Pos2Z.inj_add; fold d; lia|lia].
    split; [reflexivity|]. split; [lia|].
    rewrite iter_xO_value. f_equal. f_equal. lia.
Qed.

End FloatFacts.

Lemma to_int_of_int (z : Z) : 0 <= z < 2 ^ 53 -> F64.to_int (F64.of_int z) = z.
Proof.
  intros Hz. destruct (Z.eq_dec z 0) as [->|Hnz]; [reflexivity|].
  destruct (of_int_exact z) as (m & e & -> & He & Hm); [lia|].
  unfold F64.to_int, F64.trunc, cond_Zopp. rewrite Hm.
  assert (Hval : (if 0 <=? e then z * 2 ^ (- e) * 2 ^ e
                  else z * 2 ^ (- e) / 2 ^ (- e)) = z).
  { destruct (Z.leb_spec 0 e).
    - replace e with 0 by lia. simpl. lia.
    - apply Z.div_mul. apply Z.pow_nonzero; lia. }
  rewrite Hval.
  replace (GoInt.in_range z) with true; [reflexivity|].
  symmetry. unfold GoInt.in_range, GoInt.min_int, GoInt.max_int.
  apply andb_true_iff. split; apply Z.leb_le; lia.
Qed.

(** The points of rule 5 for a price that is not negative and whose
    product by 0.2 stays below 2^31. *)
Lemma rule5_points_range (price : float64) :
  F64.leb F64.zero price = true ->
  F64.ltb (F64.mul price F64.c0_2) (F64.of_int (2 ^ 31)) = true ->
  0 <= F64.to_int (F64.Ceil (F64.mul price F64.c0_2)) <= 2 ^ 31.
Proof.
  intros Hsign Hlt.
  destruct price as [s|s| |s m e]; try discriminate.
  - destruct s; vm_compute; split; discriminate.
  - destruct s; discriminate.
  - destruct s; [discriminate|].
    unfold F64.mul, SFmul, F64.c0_2 in *. simpl xorb in *.
    pose proof (binary_round_aux_shape false
      (Z.pos (m * 7205759403792794)) (e + -55) loc_Exact) as Hshape.
    destruct (binary_round_aux F64.prec F64.emax false
      (Z.pos (m * 7205759403792794)) (e + -55) loc_Exact)
      as [s'|s'| |s' m' e'].
    + vm_compute; split; discriminate.
    + specialize (Hshape ltac:(lia)). subst s'. discriminate.
    + discriminate.
    + destruct Hshape as [-> Hm']; [lia|].
      assert (He : e' < 0 /\ Z.pos m' < 2 ^ 31 * 2 ^ (- e')).
      { change (F64.of_int (2 ^ 31))
          with (S754_finite false 4503599627370496 (-21)) in Hlt.
        unfold F64.ltb, SFltb, SFcompare in Hlt.
        destruct (e' ?= -21) eqn:Ecmp; [| |discriminate].
        - apply Z.compare_eq_iff in Ecmp. split; [lia|].
          rewrite Pos.compare_cont_spec in Hlt.
          destruct (Pos.compare_spec m' 4503599627370496) as [Ec|Ec|Ec];
            try discriminate.
          rewrite Ecmp. change (2 ^ 31 * 2 ^ (- -21)) with 4503599627370496.
          exact (Pos2Z.pos_lt_pos _ _ Ec).
        - apply -> Z.compare_lt_iff in Ecmp. split; [lia|].
          apply Z.lt_le_trans with (1 := Hm').
          rewrite <- (Z.pow_add_r 2 31 (- e')) by lia.
          apply Z.pow_le_mono_r; lia. }
      destruct He as [He Hval].
      unfold F64.Ceil. replace (0 <=? e') with false
        by (symmetry; apply Z.leb_gt; lia).
      fold (F64.of_int ((Z.pos m' + 2 ^ (- e') - 1) / 2 ^ (- e'))).
      assert (Hd : 0 < 2 ^ (- e')) by (apply Z.pow_pos_nonneg; lia).
      assert (Hz : 0 <= (Z.pos m' + 2 ^ (- e') - 1) / 2 ^ (- e') <= 2 ^ 31).
      { split; [apply Z.div_pos; lia|].
        apply Z.lt_succ_r. apply Z.div_lt_upper_bound; lia. }
      rewrite to_int_of_int; lia.
Qed.

(** ** The score of an accepted receipt *)

Ltac int_range := unfold GoInt.min_int, GoInt.max_int in *; lia.

Lemma rule5_step_range (points : Z) (it : Item) :
  price_in_range (Price it) = true ->
  0 <= points -> points + 2 ^ 31 <= GoInt.max_int ->
  points <= rule5_step points it <= points + 2 ^ 31.
Proof.
  unfold price_in_range. intros Hp H0 Hb.
  apply andb_true_iff in Hp. destruct Hp as [Hsign Hlt].
  unfold rule5_step.
  destruct (GoInt.rem _ 3 =? 0); [|lia].
  destruct (strconv.ParseFloat (Price it)) as [price [err|]]; [lia|].
  simpl in Hsign, Hlt.
  pose proof (rule5_points_range price Hsign Hlt).
  rewrite add_small by int_range. lia.
Qed.

Lemma rule5_loop_range (items : list Item) (points : Z) :
  Forall (fun it => price_in_range (Price it) = true) items ->
  0 <= points ->
  points + 2 ^ 31 * Z.of_nat (List.length items) <= GoInt.max_int ->
  points <= fold_left rule5_step items points
         <= points + 2 ^ 31 * Z.of_nat (List.length items).
Proof.
  intros Hall. revert points.
  induction Hall as [|it items Hit _ IH]; intros points H0 Hb; simpl in *.
  - lia.
  - pose proof (rule5_step_range points it Hit H0 ltac:(lia)) as Hs.
    specialize (IH (rule5_step points it) ltac:(lia) ltac:(lia)). lia.
Qed.

Lemma rules_1_3_range (r : Receipt) :
  Z.of_nat (String.length (Retailer r)) < 2 ^ 32 ->
  0 <= rules_1_3 r <= Z.of_nat (String.length (Retailer r)) + 75.
Proof.
  intros Hlen. unfold rules_1_3. rewrite rule1_points.
  pose proof (countAlphanumeric_bound (Retailer r) ltac:(int_range)) as Hc.
  destruct (strconv.ParseFloat (Total r)) as [total err].
  assert (H2 : countAlphanumeric (Retailer r)
               <= rule2 total err (countAlphanumeric (Retailer r))
               <= countAlphanumeric (Retailer r) + 50).
  { unfold rule2. destruct (_ && _); [|lia].
    rewrite add_small by int_range. lia. }
  unfold rule3. destruct (F64.eqb _ _); [|lia].
  rewrite add_small by int_range. lia.
Qed.

Lemma rule4_range (n points : Z) :
  0 <= n < 2 ^ 30 -> 0 <= points < 2 ^ 33 ->
  0 <= (if 0 <? n
        then GoInt.add points (GoInt.mul (GoInt.div n 2) 5) else 0)
    <= points + 5 * n.
Proof.
  intros Hn Hp. destruct (0 <? n); [|lia].
  pose proof (Z.quot_div_nonneg n 2 ltac:(lia) ltac:(lia)) as Hq.
  pose proof (Z.div_pos n 2 ltac:(lia) ltac:(lia)).
  pose proof (Z.div_le_upper_bound n 2 n ltac:(lia) ltac:(lia)).
  unfold GoInt.div, GoInt.mul. rewrite Hq.
  rewrite (wrap_small (n / 2)) by int_range.
  rewrite (wrap_small (n / 2 * 5)) by int_range.
  rewrite add_small by int_range. lia.
Qed.

(** C3, as stated, fails: the validator accepts a negative price, and
    rule 5 then subtracts.  The accepted receipt below scores -19. *)
Lemma negative_price_scores_negative :
  validate negative_price_receipt = inr negative_price_receipt /\
  rule5_step 0 (item "abc" "-100") = -20 /\
  calculatePoints negative_price_receipt = Some (-19).
Proof. repeat split; vm_compute; reflexivity. Qed.

(** C3 (amended): for every accepted receipt whose date has at least
    three dash-separated fields and whose prices are in range (not
    negative, not NaN, and with [price * 0.2] below 2^31 in float64),
    [calculatePoints] returns an integer that is not negative.  The bounds
    on the sizes (a retailer name shorter than 2^32 bytes, fewer than 2^30
    items) keep the 64-bit sum from wrapping around. *)
Theorem accepted_points_nonneg (r : Receipt) :
  validate r = inr r ->
  (3 <= List.length (strings.Split (PurchaseDate r) "-"))%nat ->
  Forall (fun it => price_in_range (Price it) = true) (Items r) ->
  Z.of_nat (String.length (Retailer r)) < 2 ^ 32 ->
  Z.of_nat (List.length (Items r)) < 2 ^ 30 ->
  exists v, calculatePoints r = Some v /\ 0 <= v.
Proof.
  intros _ Hdate Hprices Hret Hitems.
  pose proof (rules_1_3_range r Hret) as H13.
  pose proof (rule4_range (Z.of_nat (List.length (Items r))) (rules_1_3 r)
                ltac:(lia) ltac:(lia)) as H4.
  assert (H45 : 0 <= rules_4_5 r (rules_1_3 r) < 2 ^ 62).
  { unfold rules_4_5.
    set (p4 := if 0 <? _ then _ else 0) in *.
    pose proof (rule5_loop_range (Items r) p4 Hprices ltac:(lia)
                  ltac:(int_range)). lia. }
  unfold calculatePoints.
  destruct (strings.Split (PurchaseDate r) "-" !! 2%nat) as [dayText|] eqn:Ed.
  2: { apply lookup_ge_None in Ed. lia. }
  destruct (Split_head (PurchaseTime r) ":") as [hourText ->].
  eexists. split; [reflexivity|].
  set (p5 := rules_4_5 r (rules_1_3 r)) in *.
  assert (H6 : 0 <= rule6 dayText p5 < 2 ^ 62 + 6).
  { destruct (rule6_cases dayText p5) as [-> | ->]; [lia|].
    rewrite add_small by int_range. lia. }
  destruct (rule7_cases hourText (rule6 dayText p5)) as [-> | ->]; [lia|].
  rewrite add_small by int_range. lia.
Qed.

Lemma accepted_points_nonneg_witness :
  exists v, calculatePoints target_receipt = Some v /\ 0 <= v.
Proof.
  apply (accepted_points_nonneg target_receipt).
  - reflexivity.
  - vm_compute. lia.
  - repeat constructor.
  - vm_compute. reflexivity.
  - vm_compute. reflexivity.
Defined.

(** * Further properties *)

(** ** The handlers and the map *)


Lemma processReceipts_ok (id : string) (receipts receipts' : gmap string Z)
    (r : Receipt) :
  processReceipts id receipts r = (StatusOK id, receipts') ->
  exists v, calculatePoints r = Some v /\ receipts' = <[id := v]> receipts.
Proof.
  unfold processReceipts.
  destruct (validate r) as [reason|r'] eqn:Ev; [discriminate|].
  apply validate_inr in Ev as ->.
  destruct (calculatePoints r) as [v|]; [|discriminate].
  intros [= <-]. eauto.
Qed.

(** After a request answered with an identifier, [getPoints] finds under
    that identifier the score of the receipt, and every other identifier
    reads as before. *)
Theorem processed_points_retrievable (id : string) (receipts receipts' : gmap string Z)
    (r : Receipt) :
  processReceipts id receipts r = (StatusOK id, receipts') ->
  getPoints receipts' id = calculatePoints r /\
  forall id', id' <> id -> getPoints receipts' id' = getPoints receipts id'.
Proof.
  intros H. apply processReceipts_ok in H as (v & -> & ->).
  unfold getPoints. split.
  - apply lookup_insert_eq.
  - intros id' Hne. apply lookup_insert_ne. congruence.
Qed.

Lemma processed_points_retrievable_witness :
  getPoints (<["id-1" := 28]> ∅) "id-1" = calculatePoints target_receipt /\
  forall id', id' <> "id-1" ->
    getPoints (<["id-1" := 28]> ∅) id' = getPoints ∅ id'.
Proof.
  apply (processed_points_retrievable "id-1" ∅ _ target_receipt).
  apply target_receipt_request.
Defined.

(** A request that is not answered with an identifier (a rejection or a
    panic) leaves the map as it was. *)
Theorem failed_request_keeps_map (id : string) (receipts receipts' : gmap string Z)
    (r : Receipt) (resp : Response) :
  processReceipts id receipts r = (resp, receipts') ->
  (forall id', resp <> StatusOK id') ->
  receipts' = receipts.
Proof.
  unfold processReceipts.
  destruct (validate r) as [reason|r0]; [now intros [= <- <-]|].
  destruct (calculatePoints r0) as [v|]; [|now intros [= <- <-]].
  intros [= <- <-] Hno. now elim (Hno id).
Qed.

Lemma failed_request_keeps_map_witness :
  (<["id-1" := 28]> ∅ : gmap string Z) = <["id-1" := 28]> ∅.
Proof.
  apply (failed_request_keeps_map "id-2" (<["id-1" := 28]> ∅) _
           short_date_receipt Panicked).
  - apply short_date_request.
  - discriminate.
Defined.

(** Two requests with different identifiers, both answered: each score is
    found under its identifier afterwards. *)
Theorem two_requests_retrievable (id1 id2 : string)
    (receipts0 receipts1 receipts2 : gmap string Z) (r1 r2 : Receipt) :
  id1 <> id2 ->
  processReceipts id1 receipts0 r1 = (StatusOK id1, receipts1) ->
  processReceipts id2 receipts1 r2 = (StatusOK id2, receipts2) ->
  getPoints receipts2 id1 = calculatePoints r1 /\
  getPoints receipts2 id2 = calculatePoints r2.
Proof.
  intros Hne H1 H2.
  apply processReceipts_ok in H1 as (v1 & -> & ->).
  apply processReceipts_ok in H2 as (v2 & -> & ->).
  unfold getPoints. split.
  - rewrite lookup_insert_ne by congruence. apply lookup_insert_eq.
  - apply lookup_insert_eq.
Qed.

Lemma two_requests_retrievable_witness :
  getPoints (<["id-2" := 28]> (<["id-1" := 28]> ∅)) "id-1"
    = calculatePoints target_receipt /\
  getPoints (<["id-2" := 28]> (<["id-1" := 28]> ∅)) "id-2"
    = calculatePoints target_receipt.
Proof.
  apply (two_requests_retrievable "id-1" "id-2" ∅ (<["id-1" := 28]> ∅) _
           target_receipt target_receipt).
  - discriminate.
  - apply target_receipt_request.
  - apply target_receipt_request.
Defined.

(** ** When the scoring panics *)

Lemma Split_length (s : string) (sep : ascii) :
  List.length (strings.Split s sep) = S (count_byte sep (bytes s)).
Proof.
  induction s as [|c s IH]; simpl; [reflexivity|].
  destruct (byte_eqb c sep); simpl; [now rewrite IH|].
  destruct (strings.Split s sep) as [|p ps]; simpl in *; [lia|exact IH].
Qed.

(** [calculatePoints] panics exactly when the purchase date holds fewer
    than two dashes; the time never makes it panic. *)
Theorem calculatePoints_panics_iff (r : Receipt) :
  calculatePoints r = None <->
  (count_byte "-" (bytes (PurchaseDate r)) < 2)%nat.
Proof.
  unfold calculatePoints.
  destruct (Split_head (PurchaseTime r) ":") as [h ->].
  pose proof (Split_length (PurchaseDate r) "-") as Hlen.
  destruct (strings.Split (PurchaseDate r) "-" !! 2%nat) as [d|] eqn:E.
  - apply lookup_lt_Some in E. split; [discriminate|lia].
  - apply lookup_ge_None in E. split; [lia|reflexivity].
Qed.

(** ** The count of letters and digits *)

Lemma countAlphanumeric_alnum_filter (s : string) :
  Z.of_nat (String.length s) <= GoInt.max_int ->
  countAlphanumeric s = Z.of_nat (alnum_bytes s).
Proof.
  intros Hlen. unfold countAlphanumeric, alnum_bytes.
  rewrite <- bytes_length in Hlen.
  assert (H : forall l acc, 0 <= acc ->
    acc + Z.of_nat (List.length l) <= GoInt.max_int ->
    fold_left count_step l acc
    = acc + Z.of_nat (List.length (List.filter is_alnum l))).
  { induction l as [|ch l IH]; intros acc H0 Hb; simpl in *; [lia|].
    unfold count_step at 2. destruct (is_alnum ch); simpl.
    - rewrite add_small by (unfold GoInt.min_int, GoInt.max_int in *; lia).
      rewrite IH by lia. lia.
    - rewrite IH by lia. lia. }
  rewrite H by lia. lia.
Qed.

(** For a string that fits in memory (shorter than 2^63 bytes),
    [countAlphanumeric] is the number of its bytes that are ASCII letters
    or digits. *)
Theorem countAlphanumeric_alnum_bytes (s : string) :
  Z.of_nat (String.length s) <= GoInt.max_int ->
  countAlphanumeric s = Z.of_nat (alnum_bytes s).
Proof. apply countAlphanumeric_alnum_filter. Qed.

Lemma countAlphanumeric_alnum_bytes_witness :
  countAlphanumeric "M&M Corner Market" = Z.of_nat (alnum_bytes "M&M Corner Market").
Proof.
  apply (countAlphanumeric_alnum_bytes "M&M Corner Market").
  vm_compute. discriminate.
Defined.

(** ** The score as a sum *)

Section WrapFacts.

Import GoInt.

Lemma wrap_mod (z : Z) : wrap z mod 2 ^ 64 = z mod 2 ^ 64.
Proof.
  unfold wrap.
  replace ((z + 2 ^ 63) mod 2 ^ 64 - 2 ^ 63)
    with ((z + 2 ^ 63) mod 2 ^ 64 + - 2 ^ 63) by lia.
  rewrite Zplus_mod_idemp_l. f_equal. lia.
Qed.

Lemma wrap_congr (a b : Z) : a mod 2 ^ 64 = b mod 2 ^ 64 -> wrap a = wrap b.
Proof.
  intros H. unfold wrap.
  rewrite (Z.add_mod a), (Z.add_mod b), H by lia. reflexivity.
Qed.

Lemma wrap_add_l (a b : Z) : wrap (wrap a + b) = wrap (a + b).
Proof.
  apply wrap_congr. rewrite Z.add_mod, wrap_mod, <- Z.add_mod by lia.
  reflexivity.
Qed.

Lemma wrap_add_r (a b : Z) : wrap (a + wrap b) = wrap (a + b).
Proof. rewrite Z.add_comm, wrap_add_l. f_equal. lia. Qed.

Lemma wrap_mul_l (a b : Z) : wrap (wrap a * b) = wrap (a * b).
Proof.
  apply wrap_congr. rewrite Z.mul_mod, wrap_mod, <- Z.mul_mod by lia.
  reflexivity.
Qed.

Lemma wrap_wrap (a : Z) : wrap (wrap a) = wrap a.
Proof. apply wrap_small, wrap_range. Qed.

End WrapFacts.

Lemma rule2_wrap (total : float64) (err : option strconv.NumError) (x : Z) :
  rule2 total err (GoInt.wrap x) = GoInt.wrap (x + rule2 total err 0).
Proof.
  unfold rule2. destruct (_ && _).
  - unfold GoInt.add. now rewrite wrap_add_l, wrap_add_r.
  - now rewrite Z.add_0_r.
Qed.

Lemma rule3_wrap (total : float64) (x : Z) :
  rule3 total (GoInt.wrap x) = GoInt.wrap (x + rule3 total 0).
Proof.
  unfold rule3. destruct (F64.eqb _ _).
  - unfold GoInt.add. now rewrite wrap_add_l, wrap_add_r.
  - now rewrite Z.add_0_r.
Qed.

Lemma rule6_wrap (dayText : string) (x : Z) :
  rule6 dayText (GoInt.wrap x) = GoInt.wrap (x + rule6 dayText 0).
Proof.
  unfold rule6. destruct (strconv.Atoi dayText) as [day|];
    [|now rewrite Z.add_0_r].
  destruct (negb _).
  - unfold GoInt.add. now rewrite wrap_add_l, wrap_add_r.
  - now rewrite Z.add_0_r.
Qed.

Lemma rule7_wrap (hourText : string) (x : Z) :
  rule7 hourText (GoInt.wrap x) = GoInt.wrap (x + rule7 hourText 0).
Proof.
  unfold rule7. destruct (strconv.Atoi hourText) as [hour|];
    [|now rewrite Z.add_0_r].
  destruct (_ && _).
  - unfold GoInt.add. now rewrite wrap_add_l, wrap_add_r.
  - now rewrite Z.add_0_r.
Qed.

Lemma rule5_step_wrap (it : Item) (x : Z) :
  rule5_step (GoInt.wrap x) it = GoInt.wrap (x + item_points it).
Proof.
  unfold item_points, rule5_step.
  destruct (GoInt.rem _ 3 =? 0); [|now rewrite Z.add_0_r].
  destruct (strconv.ParseFloat (Price it)) as [price [err|]];
    [now rewrite Z.add_0_r|].
  unfold GoInt.add. now rewrite wrap_add_l, wrap_add_r.
Qed.

Lemma rule5_loop_wrap (items : list Item) (x : Z) :
  fold_left rule5_step items (GoInt.wrap x)
  = GoInt.wrap (x + sum_points items).
Proof.
  revert x. induction items as [|it items IH]; intros x; simpl.
  - now rewrite Z.add_0_r.
  - rewrite rule5_step_wrap, IH. f_equal. lia.
Qed.

Lemma rule4_wrap (n x : Z) :
  0 <= n ->
  GoInt.add (GoInt.wrap x) (GoInt.mul (GoInt.div n 2) 5)
  = GoInt.wrap (x + 5 * (n / 2)).
Proof.
  intros Hn. unfold GoInt.add, GoInt.mul, GoInt.div.
  rewrite Z.quot_div_nonneg by lia.
  rewrite wrap_mul_l, wrap_add_l, wrap_add_r. f_equal. lia.
Qed.

(** With at least one item (and a date that has its third field), the
    score is the sum of the seven contributions, wrapped to 64 bits. *)
Lemma calculatePoints_wrap_sum (r : Receipt) (dayText hourText : string) :
  Items r <> [] ->
  strings.Split (PurchaseDate r) "-" !! 2%nat = Some dayText ->
  strings.Split (PurchaseTime r) ":" !! 0%nat = Some hourText ->
  calculatePoints r = Some (GoInt.wrap (exact_points r dayText hourText)).
Proof.
  intros Hitems Hday Hhour.
  unfold calculatePoints, exact_points, rules_4_5, rules_1_3.
  rewrite Hday, Hhour.
  destruct (strconv.ParseFloat (Total r)) as [total err].
  rewrite rule1_points.
  rewrite <- (wrap_small (countAlphanumeric (Retailer r))) at 1
    by apply countAlphanumeric_range.
  rewrite rule2_wrap, rule3_wrap.
  replace (0 <? Z.of_nat (List.length (Items r))) with true.
  2: { symmetry. apply Z.ltb_lt. destruct (Items r); [congruence|simpl; lia]. }
  cbv iota. rewrite rule4_wrap by lia.
  rewrite rule5_loop_wrap, rule6_wrap, rule7_wrap. reflexivity.
Qed.

Theorem score_is_wrapped_sum (r : Receipt) (dayText hourText : string) :
  Items r <> [] ->
  strings.Split (PurchaseDate r) "-" !! 2%nat = Some dayText ->
  strings.Split (PurchaseTime r) ":" !! 0%nat = Some hourText ->
  calculatePoints r = Some (GoInt.wrap (exact_points r dayText hourText)).
Proof. apply calculatePoints_wrap_sum. Qed.

Lemma score_is_wrapped_sum_witness :
  calculatePoints target_receipt
  = Some (GoInt.wrap (exact_points target_receipt "01" "13")).
Proof.
  apply (score_is_wrapped_sum target_receipt "01" "13");
    [discriminate|reflexivity|reflexivity].
Defined.

(** ** The order of the items *)

Lemma sum_points_Permutation (items items' : list Item) :
  Permutation items items' -> sum_points items = sum_points items'.
Proof.
  induction 1; simpl; lia.
Qed.

(** The score does not depend on the order of the items. *)
Theorem score_ignores_item_order (r r' : Receipt) :
  Retailer r = Retailer r' -> Total r = Total r' ->
  PurchaseDate r = PurchaseDate r' -> PurchaseTime r = PurchaseTime r' ->
  Permutation (Items r) (Items r') ->
  calculatePoints r = calculatePoints r'.
Proof.
  intros Hret Htot Hdate Htime Hperm.
  destruct (strings.Split (PurchaseDate r) "-" !! 2%nat) as [d|] eqn:Ed.
  2: { unfold calculatePoints. rewrite <- Hdate, Ed. reflexivity. }
  destruct (Split_head (PurchaseTime r) ":") as [h Hh].
  destruct (Items r) as [|it items] eqn:Ei.
  - apply Permutation_nil in Hperm.
    unfold calculatePoints, rules_4_5.
    rewrite <- Hdate, <- Htime, Ei, Hperm. reflexivity.
  - assert (Hne' : Items r' <> []).
    { intros E. rewrite E in Hperm. apply Permutation_sym in Hperm.
      now apply Permutation_nil in Hperm. }
    rewrite (calculatePoints_wrap_sum r d h) by (rewrite ?Ei; congruence).
    rewrite (calculatePoints_wrap_sum r' d h) by congruence.
    unfold exact_points. rewrite <- Hret, <- Htot, Ei.
    rewrite <- (Permutation_length Hperm).
    rewrite <- (sum_points_Permutation _ _ Hperm). reflexivity.
Qed.

Lemma score_ignores_item_order_witness :
  calculatePoints target_receipt = calculatePoints shuffled_target_receipt.
Proof.
  apply (score_ignores_item_order target_receipt shuffled_target_receipt);
    try reflexivity.
  simpl.
  apply Permutation_cons_app with
    (l1 := [item "Klarbrunn 12-PK 12 FL OZ" "12.00"]). simpl.
  apply Permutation_cons_app with
    (l1 := [item "Klarbrunn 12-PK 12 FL OZ" "12.00";
            item "Doritos Nacho Cheese" "3.35"]). simpl.
  apply Permutation_cons_app with
    (l1 := [item "Klarbrunn 12-PK 12 FL OZ" "12.00";
            item "Doritos Nacho Cheese" "3.35"]). simpl.
  apply Permutation_cons_app with
    (l1 := [item "Klarbrunn 12-PK 12 FL OZ" "12.00"]). simpl.
  apply Permutation_refl.
Defined.

(** ** Acceptance *)

Lemma items_loop_passes (items : list Item) :
  items_loop items = None <-> Forall (fun it => item_passes it = true) items.
Proof.
  induction items as [|it items IH]; simpl.
  - split; [constructor|reflexivity].
  - rewrite Forall_cons, <- IH.
    unfold check_item, item_passes, Spec.parses.
    destruct (is_empty (ShortDescription it)); simpl.
    { split; [discriminate|intros [? _]; discriminate]. }
    destruct (strconv.ParseFloat (Price it)) as [price [err|]]; simpl.
    { split; [discriminate|intros [? _]; discriminate]. }
    split; [intros H; split; [reflexivity|exact H]|intros [_ H]; exact H].
Qed.

(** A receipt is accepted exactly when the retailer, the total, the date
    and the time are not empty, the total parses, there is at least one
    item, and every item has a description and a price that parses.  An
    accepted receipt therefore never takes the branch of rule 4 that
    resets the points. *)
Theorem validate_accepts_iff (r : Receipt) :
  validate r = inr r <->
  is_empty (Retailer r) = false /\ is_empty (Total r) = false /\
  Spec.parses (Total r) = true /\
  is_empty (PurchaseDate r) = false /\ is_empty (PurchaseTime r) = false /\
  Items r <> [] /\
  Forall (fun it => item_passes it = true) (Items r).
Proof.
  unfold validate, Spec.parses.
  destruct (is_empty (Retailer r)); [split; [discriminate|intros (? & _); discriminate]|].
  destruct (is_empty (Total r));
    [split; [discriminate|intros (_ & ? & _); discriminate]|].
  destruct (is_nil (snd (strconv.ParseFloat (Total r)))); simpl;
    [|split; [discriminate|intros (_ & _ & ? & _); discriminate]].
  destruct (is_empty (PurchaseDate r));
    [split; [discriminate|intros (_ & _ & _ & ? & _); discriminate]|].
  destruct (is_empty (PurchaseTime r));
    [split; [discriminate|intros (_ & _ & _ & _ & ? & _); discriminate]|].
  destruct (Items r) as [|it items] eqn:Ei; simpl.
  { split; [discriminate|intros (_ & _ & _ & _ & _ & ? & _); congruence]. }
  rewrite <- items_loop_passes. simpl.
  destruct (check_item it) as [reason|it'].
  - split; [discriminate|intros (_ & _ & _ & _ & _ & _ & ?); discriminate].
  - destruct (items_loop items).
    + split; [discriminate|intros (_ & _ & _ & _ & _ & _ & ?); discriminate].
    + split; [intros _; repeat split; congruence|reflexivity].
Qed.

Lemma item_points_range (it : Item) :
  price_in_range (Price it) = true -> 0 <= item_points it <= 2 ^ 31.
Proof.
  intros Hp. unfold item_points.
  pose proof (rule5_step_range 0 it Hp ltac:(lia) ltac:(int_range)). lia.
Qed.

Lemma sum_points_range (items : list Item) :
  Forall (fun it => price_in_range (Price it) = true) items ->
  0 <= sum_points items <= 2 ^ 31 * Z.of_nat (List.length items).
Proof.
  induction 1 as [|it items Hit _ IH]; simpl; [lia|].
  pose proof (item_points_range it Hit). lia.
Qed.

Lemma rule_points_cases (total : float64) (err : option strconv.NumError)
    (dayText hourText : string) :
  (rule2 total err 0 = 0 \/ rule2 total err 0 = 50) /\
  (rule3 total 0 = 0 \/ rule3 total 0 = 25) /\
  (rule6 dayText 0 = 0 \/ rule6 dayText 0 = 6) /\
  (rule7 hourText 0 = 0 \/ rule7 hourText 0 = 10).
Proof.
  repeat split.
  - unfold rule2. destruct (_ && _); [now right|now left].
  - unfold rule3. destruct (F64.eqb _ _); [now right|now left].
  - destruct (rule6_cases dayText 0) as [-> | ->]; [now left|now right].
  - destruct (rule7_cases hourText 0) as [-> | ->]; [now left|now right].
Qed.

(** Within the bounds that keep 64 bits from overflowing (prices in
    range, a retailer name shorter than 2^32 bytes, fewer than 2^30
    items), the score of a receipt with at least one item is exactly the
    sum of the seven contributions, and it is at least the number of
    letters and digits of the retailer name plus 5 per pair of items. *)
Theorem score_is_exact_sum (r : Receipt) (dayText hourText : string) :
  Items r <> [] ->
  strings.Split (PurchaseDate r) "-" !! 2%nat = Some dayText ->
  strings.Split (PurchaseTime r) ":" !! 0%nat = Some hourText ->
  Forall (fun it => price_in_range (Price it) = true) (Items r) ->
  Z.of_nat (String.length (Retailer r)) < 2 ^ 32 ->
  Z.of_nat (List.length (Items r)) < 2 ^ 30 ->
  calculatePoints r = Some (exact_points r dayText hourText) /\
  Z.of_nat (alnum_bytes (Retailer r))
    + 5 * (Z.of_nat (List.length (Items r)) / 2)
    <= exact_points r dayText hourText.
Proof.
  intros Hitems Hday Hhour Hprices Hret Hn.
  rewrite (calculatePoints_wrap_sum r dayText hourText Hitems Hday Hhour).
  pose proof (countAlphanumeric_bound (Retailer r) ltac:(int_range)) as Hc.
  pose proof (countAlphanumeric_alnum_filter (Retailer r) ltac:(int_range))
    as Hc'.
  pose proof (sum_points_range (Items r) Hprices) as Hs.
  pose proof (Z.div_pos (Z.of_nat (List.length (Items r))) 2
                ltac:(lia) ltac:(lia)) as Hq0.
  pose proof (Z.div_le_upper_bound (Z.of_nat (List.length (Items r))) 2
                (Z.of_nat (List.length (Items r))) ltac:(lia) ltac:(lia))
    as Hq.
  unfold exact_points in *.
  destruct (strconv.ParseFloat (Total r)) as [total err].
  destruct (rule_points_cases total err dayText hourText)
    as (H2 & H3 & H6 & H7).
  split; [f_equal; apply wrap_small; int_range|lia].
Qed.

Lemma score_is_exact_sum_witness :
  calculatePoints target_receipt
    = Some (exact_points target_receipt "01" "13") /\
  Z.of_nat (alnum_bytes (Retailer target_receipt))
    + 5 * (Z.of_nat (List.length (Items target_receipt)) / 2)
    <= exact_points target_receipt "01" "13".
Proof.
  apply (score_is_exact_sum target_receipt "01" "13").
  - discriminate.
  - reflexivity.
  - reflexivity.
  - repeat constructor.
  - vm_compute. reflexivity.
  - vm_compute. reflexivity.
Defined.

(** ** Exact float64 operations *)

Lemma Zdigits2_bounds (z : Z) :
  0 < z -> 2 ^ (Zdigits2 z - 1) <= z < 2 ^ Zdigits2 z.
Proof.
  intros Hz. destruct z as [|p|p]; try lia. simpl.
  pose proof (digits2_upper p). pose proof (digits2_lower p).
  split; [|assumption].
  replace (2 ^ Z.pos (digits2_pos p))
    with (2 * 2 ^ (Z.pos (digits2_pos p) - 1)) in *; [lia|].
  rewrite <- Z.pow_succ_r by lia. f_equal. lia.
Qed.

Lemma Zdigits2_unique (z d : Z) :
  2 ^ (d - 1) <= z < 2 ^ d -> 0 < z -> Zdigits2 z = d.
Proof.
  intros [Hl Hu] Hz. pose proof (Zdigits2_bounds z Hz) as [Hl' Hu'].
  assert (Hd0 : 0 < Zdigits2 z) by (destruct z; simpl; lia).
  assert (Hd : 0 < d).
  { destruct (Z_lt_le_dec 0 d) as [|Hle]; [assumption|exfalso].
    rewrite (Z.pow_neg_r 2 (d - 1)) in Hl by lia.
    assert (2 ^ d <= 2 ^ 0) by (apply Z.pow_le_mono_r; lia).
    simpl in *. lia. }
  destruct (Z.lt_trichotomy (Zdigits2 z) d) as [Hlt|[Heq|Hgt]];
    [exfalso|assumption|exfalso].
  - assert (2 ^ Zdigits2 z <= 2 ^ (d - 1)) by (apply Z.pow_le_mono_r; lia).
    lia.
  - assert (2 ^ d <= 2 ^ (Zdigits2 z - 1)) by (apply Z.pow_le_mono_r; lia).
    lia.
Qed.

Lemma Zdigits2_mul_pow2 (z t : Z) :
  0 < z -> 0 <= t -> Zdigits2 (z * 2 ^ t) = Zdigits2 z + t.
Proof.
  intros Hz Ht. pose proof (Zdigits2_bounds z Hz) as [Hl Hu].
  assert (Hd0 : 0 < Zdigits2 z) by (destruct z; simpl; lia).
  assert (Hp : 0 < 2 ^ t) by (apply Z.pow_pos_nonneg; lia).
  apply Zdigits2_unique; [|nia].
  replace (Zdigits2 z + t - 1) with (Zdigits2 z - 1 + t) by lia.
  rewrite !Z.pow_add_r by lia. nia.
Qed.

Lemma shr_1_even (j : Z) :
  0 <= j ->
  shr_1 {| shr_m := j * 2; shr_r := false; shr_s := false |}
  = {| shr_m := j; shr_r := false; shr_s := false |}.
Proof.
  intros Hj. destruct j as [|p|p]; try lia; [reflexivity|].
  replace (Z.pos p * 2) with (Z.pos p~0) by lia. reflexivity.
Qed.

Lemma iter_shr_exact (n : positive) (k : Z) :
  0 <= k ->
  SpecFloat.iter_pos shr_1 n
    {| shr_m := k * 2 ^ Z.pos n; shr_r := false; shr_s := false |}
  = {| shr_m := k; shr_r := false; shr_s := false |}.
Proof.
  revert k. induction n as [n IH|n IH|]; intros k Hk;
    cbn [SpecFloat.iter_pos].
  - replace (k * 2 ^ Z.pos n~1)
      with (k * 2 ^ Z.pos n * 2 ^ Z.pos n * 2).
    2: { replace (Z.pos n~1) with (Z.pos n + Z.pos n + 1) by lia.
         rewrite !Z.pow_add_r by lia. change (2 ^ 1) with 2. lia. }
    assert (0 < 2 ^ Z.pos n) by (apply Z.pow_pos_nonneg; lia).
    rewrite shr_1_even by nia. rewrite IH by nia. now apply IH.
  - replace (k * 2 ^ Z.pos n~0) with (k * 2 ^ Z.pos n * 2 ^ Z.pos n).
    2: { replace (Z.pos n~0) with (Z.pos n + Z.pos n) by lia.
         rewrite !Z.pow_add_r by lia. lia. }
    assert (0 < 2 ^ Z.pos n) by (apply Z.pow_pos_nonneg; lia).
    rewrite IH by nia. now apply IH.
  - change (2 ^ 1) with 2. now apply shr_1_even.
Qed.

(** Rounding an integer mantissa that carries the value [k * 2^(E + t)]
    in at least 53 bits, [k] itself having at most 53, is exact. *)
Lemma round_exact (k t E : Z) :
  0 < k < 2 ^ 53 -> 0 <= t -> 53 <= Zdigits2 k + t ->
  -1074 <= E + t + Zdigits2 k - 53 <= 971 ->
  binary_round_aux F64.prec F64.emax false (k * 2 ^ t) E loc_Exact
  = dyadic k (E + t).
Proof.
  intros Hk Ht Hdt He.
  pose proof (Zdigits2_bounds k ltac:(lia)) as [Hl Hu].
  assert (Hd : 0 < Zdigits2 k <= 53).
  { split; [destruct k; simpl; lia|].
    destruct (Z_le_gt_dec (Zdigits2 k) 53) as [|Hgt]; [assumption|exfalso].
    assert (2 ^ 53 <= 2 ^ (Zdigits2 k - 1))
      by (apply Z.pow_le_mono_r; lia). lia. }
  set (d := Zdigits2 k) in *.
  set (m := k * 2 ^ (53 - d)).
  assert (Hm : 0 < m) by (unfold m; apply Z.mul_pos_pos;
                          [lia|apply Z.pow_pos_nonneg; lia]).
  assert (Hmd : Zdigits2 m = 53).
  { unfold m. rewrite Zdigits2_mul_pow2 by lia. fold d. lia. }
  assert (Hshr1 : shr_fexp F64.prec F64.emax (k * 2 ^ t) E loc_Exact
                  = ({| shr_m := m; shr_r := false; shr_s := false |},
                     E + t + d - 53)).
  { unfold shr_fexp. rewrite Zdigits2_mul_pow2 by lia. fold d.
    replace (fexp F64.prec F64.emax (d + t + E) - E) with (d + t - 53)
      by (unfold fexp, emin, F64.prec, F64.emax; lia).
    unfold shr, shr_record_of_loc.
    destruct (d + t - 53) as [|n|n] eqn:En; try lia.
    - f_equal; [|lia]. f_equal. unfold m. f_equal. f_equal. lia.
    - replace (k * 2 ^ t) with (m * 2 ^ Z.pos n).
      2: { unfold m. rewrite <- Z.mul_assoc, <- Z.pow_add_r by lia.
           f_equal. f_equal. lia. }
      rewrite iter_shr_exact by lia. f_equal. lia. }
  assert (Hshr2 : shr_fexp F64.prec F64.emax m (E + t + d - 53) loc_Exact
                  = ({| shr_m := m; shr_r := false; shr_s := false |},
                     E + t + d - 53)).
  { unfold shr_fexp. rewrite Hmd.
    replace (fexp F64.prec F64.emax (53 + (E + t + d - 53))
             - (E + t + d - 53)) with 0
      by (unfold fexp, emin, F64.prec, F64.emax; lia).
    reflexivity. }
  unfold binary_round_aux. rewrite Hshr1. simpl shr_m.
  simpl loc_of_shr_record. simpl round_nearest_even. rewrite Hshr2.
  simpl shr_m. unfold dyadic. fold d. fold m.
  destruct m as [|pm|pm] eqn:Em; try lia.
  replace (E + t + d - 53 <=? F64.emax - F64.prec) with true
    by (symmetry; apply Z.leb_le; unfold F64.emax, F64.prec; lia).
  reflexivity.
Qed.

Lemma Zdigits2_small (k : Z) : 0 < k < 2 ^ 53 -> 0 < Zdigits2 k <= 53.
Proof.
  intros Hk. pose proof (Zdigits2_bounds k ltac:(lia)) as [Hl Hu].
  split; [destruct k; simpl; lia|].
  destruct (Z_le_gt_dec (Zdigits2 k) 53) as [|Hgt]; [assumption|exfalso].
  assert (2 ^ 53 <= 2 ^ (Zdigits2 k - 1)) by (apply Z.pow_le_mono_r; lia).
  lia.
Qed.

Lemma dyadic_mantissa (k : Z) :
  0 < k ->
  Z.pos (Z.to_pos (k * 2 ^ (53 - Zdigits2 k))) = k * 2 ^ (53 - Zdigits2 k)
  \/ 53 < Zdigits2 k.
Proof.
  intros Hk. destruct (Z_le_gt_dec (Zdigits2 k) 53); [left|right; lia].
  apply Z2Pos.id. apply Z.mul_pos_pos; [lia|apply Z.pow_pos_nonneg; lia].
Qed.

Lemma dyadic_scale (k j x : Z) :
  0 < k -> 0 <= j -> Zdigits2 k + j <= 53 ->
  dyadic (k * 2 ^ j) x = dyadic k (x + j).
Proof.
  intros Hk Hj Hd. unfold dyadic.
  rewrite Zdigits2_mul_pow2 by lia. f_equal; [|lia]. f_equal.
  rewrite <- Z.mul_assoc, <- Z.pow_add_r by lia. f_equal. f_equal. lia.
Qed.

(** The conversion of an integer of at most 53 bits. *)
Lemma of_int_dyadic (k : Z) : 0 < k < 2 ^ 53 -> F64.of_int k = dyadic k 0.
Proof.
  intros Hk. pose proof (Zdigits2_small k Hk) as Hd.
  destruct k as [|p|p]; try lia.
  unfold F64.of_int, binary_normalize, binary_round.
  change (Z.pos (digits2_pos p)) with (Zdigits2 (Z.pos p)) in *.
  set (d := Zdigits2 (Z.pos p)) in *.
  replace (fexp F64.prec F64.emax (d + 0)) with (d - 53)
    by (unfold fexp, emin, F64.prec, F64.emax; lia).
  unfold shl_align.
  destruct (d - 53 - 0) as [|n|n] eqn:En; try lia.
  - replace (Z.pos p) with (Z.pos p * 2 ^ 0) at 1 by (simpl; lia).
    rewrite round_exact by (fold d; lia). reflexivity.
  - rewrite iter_xO_value.
    rewrite round_exact by (fold d; lia). f_equal. lia.
Qed.

(** The product of two such floats, when it has at most 53 bits too. *)
Lemma mul_dyadic (a b x y : Z) :
  0 < a -> 0 < b -> a * b < 2 ^ 53 ->
  -1074 <= x + y + Zdigits2 (a * b) - 53 <= 971 ->
  F64.mul (dyadic a x) (dyadic b y) = dyadic (a * b) (x + y).
Proof.
  intros Ha Hb Hab He.
  assert (Ha' : 0 < a < 2 ^ 53) by nia.
  assert (Hb' : 0 < b < 2 ^ 53) by nia.
  pose proof (Zdigits2_small a Ha') as Hda.
  pose proof (Zdigits2_small b Hb') as Hdb.
  pose proof (Zdigits2_bounds a Ha) as [Hla Hua].
  pose proof (Zdigits2_bounds b Hb) as [Hlb Hub].
  pose proof (Zdigits2_bounds (a * b) ltac:(nia)) as [Hlab Huab].
  assert (Hdab : Zdigits2 a + Zdigits2 b - 1 <= Zdigits2 (a * b)).
  { destruct (Z_le_gt_dec (Zdigits2 a + Zdigits2 b - 1) (Zdigits2 (a * b)))
      as [|Hgt]; [assumption|exfalso].
    assert (2 ^ Zdigits2 (a * b) <= 2 ^ (Zdigits2 a + Zdigits2 b - 2))
      by (apply Z.pow_le_mono_r; lia).
    replace (Zdigits2 a + Zdigits2 b - 2)
      with ((Zdigits2 a - 1) + (Zdigits2 b - 1)) in * by lia.
    rewrite Z.pow_add_r in * by lia. nia. }
  unfold F64.mul, dyadic, SFmul. simpl xorb.
  rewrite Pos2Z.inj_mul.
  destruct (dyadic_mantissa a Ha) as [-> |]; [|lia].
  destruct (dyadic_mantissa b Hb) as [-> |]; [|lia].
  replace (a * 2 ^ (53 - Zdigits2 a) * (b * 2 ^ (53 - Zdigits2 b)))
    with (a * b * 2 ^ (106 - Zdigits2 a - Zdigits2 b)).
  2: { replace (106 - Zdigits2 a - Zdigits2 b)
         with ((53 - Zdigits2 a) + (53 - Zdigits2 b)) by lia.
       rewrite Z.pow_add_r by lia. lia. }
  rewrite round_exact by lia. unfold dyadic. f_equal. lia.
Qed.

(** The quotient of [25 * k] by 100, a multiple of a quarter. *)
Lemma of_ratio_quarters (k : Z) :
  0 < 25 * k < 2 ^ 53 -> F64.of_ratio false (25 * k) 100 = dyadic k (-2).
Proof.
  intros Hc. assert (Hk : 0 < k < 2 ^ 53) by lia.
  pose proof (Zdigits2_small k Hk) as Hd.
  pose proof (Zdigits2_small (25 * k) Hc) as Hdc.
  pose proof (Zdigits2_bounds k ltac:(lia)) as [Hl Hu].
  pose proof (Zdigits2_bounds (25 * k) ltac:(lia)) as [Hlc Huc].
  assert (Hdck : Zdigits2 (25 * k) <= Zdigits2 k + 5).
  { destruct (Z_le_gt_dec (Zdigits2 (25 * k)) (Zdigits2 k + 5))
      as [|Hgt]; [assumption|exfalso].
    assert (2 ^ (Zdigits2 k + 5) <= 2 ^ (Zdigits2 (25 * k) - 1))
      by (apply Z.pow_le_mono_r; lia).
    rewrite Z.pow_add_r in * by lia. change (2 ^ 5) with 32 in *. lia. }
  unfold F64.of_ratio.
  destruct (25 * k) as [|c|c] eqn:Ec; try lia. rewrite <- Ec in *.
  unfold SFdiv_core_binary.
  change (Zdigits2 100) with 7.
  set (dc := Zdigits2 (25 * k)) in *.
  replace (Z.min (fexp F64.prec F64.emax (dc + 0 - (7 + 0))) (0 - 0))
    with (dc - 60) by (unfold fexp, emin, F64.prec, F64.emax; lia).
  replace (0 - 0 - (dc - 60)) with (60 - dc) by lia.
  destruct (60 - dc) as [|s|s] eqn:Es; try lia.
  rewrite Z.shiftl_mul_pow2 by lia.
  assert (Hq : 25 * k * 2 ^ Z.pos s = 100 * (k * 2 ^ (Z.pos s - 2))).
  { replace (Z.pos s) with (2 + (Z.pos s - 2)) at 1 by lia.
    rewrite Z.pow_add_r by lia. change (2 ^ 2) with 4. lia. }
  assert (Hdiv : Z.div_eucl (25 * k * 2 ^ Z.pos s) 100
                 = (k * 2 ^ (Z.pos s - 2), 0)).
  { pose proof (Z.div_eucl_eq (25 * k * 2 ^ Z.pos s) 100 ltac:(lia)) as Heq.
    pose proof (Z.mod_pos_bound (25 * k * 2 ^ Z.pos s) 100 ltac:(lia)) as Hb.
    unfold Z.modulo in Hb.
    destruct (Z.div_eucl (25 * k * 2 ^ Z.pos s) 100) as [q r].
    f_equal; lia. }
  rewrite Hdiv. change (new_location 100 0) with loc_Exact.
  rewrite round_exact by lia. f_equal. lia.
Qed.

(** ** Rules 2 and 3 on a multiple of a quarter *)

Lemma Mod_25_exact (c : Z) :
  0 < c < 2 ^ 53 -> c mod 25 = 0 ->
  F64.Mod (dyadic c 0) F64.c25 = S754_zero false.
Proof.
  intros Hc Hmod. pose proof (Zdigits2_small c Hc) as Hd.
  unfold F64.Mod, dyadic, F64.c25.
  destruct (dyadic_mantissa c ltac:(lia)) as [-> |]; [|lia].
  set (d := Zdigits2 c) in *.
  set (e := Z.min (0 + d - 53) (-48)).
  assert (He : e <= 0 + d - 53 /\ e <= -48) by (unfold e; lia).
  replace (c * 2 ^ (53 - d) * 2 ^ (0 + d - 53 - e)) with (c * 2 ^ (- e)).
  2: { rewrite <- Z.mul_assoc, <- Z.pow_add_r by lia. f_equal. f_equal. lia. }
  replace (7036874417766400 * 2 ^ (-48 - e)) with (25 * 2 ^ (- e)).
  2: { change 7036874417766400 with (25 * 2 ^ 48).
       rewrite <- Z.mul_assoc, <- Z.pow_add_r by lia. f_equal. f_equal. lia. }
  apply Z.mod_divide in Hmod; [|lia]. destruct Hmod as [j ->].
  replace (j * 25 * 2 ^ (- e)) with (j * (25 * 2 ^ (- e))) by lia.
  rewrite Z.mod_mul; [reflexivity|].
  assert (0 < 2 ^ (- e)) by (apply Z.pow_pos_nonneg; lia). lia.
Qed.

Lemma rule3_quarters (k p : Z) :
  0 < 25 * k < 2 ^ 53 -> rule3 (dyadic k (-2)) p = GoInt.add p 25.
Proof.
  intros Hk. unfold rule3.
  change F64.c100 with (dyadic 25 2).
  pose proof (Zdigits2_small (k * 25) ltac:(lia)).
  rewrite mul_dyadic by lia.
  replace (-2 + 2) with 0 by lia.
  rewrite Mod_25_exact; [reflexivity|lia|].
  now rewrite Z.mod_mul by lia.
Qed.

Lemma to_int_dyadic_quarters (k : Z) :
  0 < k < 2 ^ 53 -> F64.to_int (dyadic k (-2)) = k / 4.
Proof.
  intros Hk. pose proof (Zdigits2_small k Hk) as Hd.
  unfold F64.to_int, F64.trunc, dyadic.
  destruct (dyadic_mantissa k ltac:(lia)) as [-> |]; [|lia].
  replace (0 <=? -2 + Zdigits2 k - 53) with false
    by (symmetry; apply Z.leb_gt; lia).
  replace (- (-2 + Zdigits2 k - 53)) with (2 + (53 - Zdigits2 k)) by lia.
  rewrite Z.pow_add_r by lia. change (2 ^ 2) with 4.
  assert (0 < 2 ^ (53 - Zdigits2 k)) by (apply Z.pow_pos_nonneg; lia).
  rewrite Z.div_mul_cancel_r by lia.
  assert (0 <= k / 4 <= k) by (split; [apply Z.div_pos; lia|
    apply Z.div_le_upper_bound; lia]).
  unfold cond_Zopp.
  replace (GoInt.in_range (k / 4)) with true; [reflexivity|].
  symmetry. unfold GoInt.in_range, GoInt.min_int, GoInt.max_int.
  apply andb_true_iff. split; apply Z.leb_le; lia.
Qed.

Lemma eqb_finite_refl (s : bool) (m : positive) (e : Z) :
  F64.eqb (S754_finite s m e) (S754_finite s m e) = true.
Proof.
  unfold F64.eqb, SFeqb, SFcompare.
  rewrite Z.compare_refl, Pos.compare_cont_refl. now destruct s.
Qed.

Lemma eqb_finite_inv (m m' : positive) (e e' : Z) :
  F64.eqb (S754_finite false m e) (S754_finite false m' e') = true ->
  e = e' /\ m = m'.
Proof.
  unfold F64.eqb, SFeqb, SFcompare.
  destruct (Z.compare_spec e e') as [He|He|He]; try discriminate.
  rewrite Pos.compare_cont_spec.
  destruct (Pos.compare_spec m m') as [Hm|Hm|Hm]; try discriminate.
  intros _. now split.
Qed.

Lemma rule2_quarters (k p : Z) :
  0 < 25 * k < 2 ^ 53 ->
  rule2 (dyadic k (-2)) None p
  = if k mod 4 =? 0 then GoInt.add p 50 else p.
Proof.
  intros Hk. assert (Hk' : 0 < k < 2 ^ 53) by lia.
  pose proof (Zdigits2_small k Hk') as Hd.
  unfold rule2. simpl is_nil. rewrite andb_true_l.
  rewrite to_int_dyadic_quarters by assumption.
  pose proof (Z.div_mod k 4 ltac:(lia)) as Hdm.
  pose proof (Z.mod_pos_bound k 4 ltac:(lia)) as Hmb.
  destruct (Z.eqb_spec (k mod 4) 0) as [Hz|Hnz].
  - assert (HN : 0 < k / 4 < 2 ^ 53) by lia.
    rewrite of_int_dyadic by assumption.
    replace (dyadic k (-2)) with (dyadic (k / 4) 0).
    + unfold dyadic. now rewrite eqb_finite_refl.
    + replace k with (k / 4 * 2 ^ 2) at 2 by (change (2 ^ 2) with 4; lia).
      assert (Zdigits2 (k / 4) + 2 <= 53).
      { rewrite <- Zdigits2_mul_pow2 by lia.
        replace (k / 4 * 2 ^ 2) with k by (change (2 ^ 2) with 4; lia).
        lia. }
      rewrite dyadic_scale by lia. reflexivity.
  - destruct (F64.eqb (dyadic k (-2)) (F64.of_int (k / 4))) eqn:E;
      [exfalso|reflexivity].
    assert (HN0 : 0 <= k / 4) by (apply Z.div_pos; lia).
    destruct (Z.eq_dec (k / 4) 0) as [H0|H0].
    + rewrite H0 in E. discriminate E.
    + assert (HN : 0 < k / 4 < 2 ^ 53) by lia.
      pose proof (Zdigits2_small (k / 4) HN) as HdN.
      rewrite of_int_dyadic in E by assumption.
      unfold dyadic in E. apply eqb_finite_inv in E as [He Hm].
      apply (f_equal Z.pos) in Hm.
      destruct (dyadic_mantissa k ltac:(lia)) as [Hk1|]; [|lia].
      destruct (dyadic_mantissa (k / 4) ltac:(lia)) as [Hk2|]; [|lia].
      rewrite Hk1, Hk2 in Hm.
      replace (53 - Zdigits2 (k / 4)) with (2 + (53 - Zdigits2 k)) in Hm
        by lia.
      rewrite Z.pow_add_r in Hm by lia. change (2 ^ 2) with 4 in Hm.
      assert (0 < 2 ^ (53 - Zdigits2 k)) by (apply Z.pow_pos_nonneg; lia).
      nia.
Qed.

(** ** Reading a total of the form [whole.ab] *)

Lemma digit_byte (c : ascii) :
  is_digit c = true ->
  byte_eqb c "_" = false /\ byte_eqb c "." = false /\
  byte_eqb c "-" = false /\ byte_eqb c "+" = false /\
  byte_eqb (lower c) "x" = false /\ byte_eqb (lower c) "b" = false /\
  byte_eqb (lower c) "o" = false /\
  0 <= strconv.digit_val c <= 9.
Proof.
  destruct c as [[] [] [] [] [] [] [] []]; try discriminate; intros _;
    vm_compute; repeat split; discriminate.
Qed.

Lemma special_digit (c : ascii) (l : list ascii) :
  is_digit c = true -> strconv.special (c :: l) = None.
Proof.
  destruct c as [[] [] [] [] [] [] [] []]; try discriminate; intros _;
    reflexivity.
Qed.

Lemma digits_value_Forall (ds : list ascii) (acc v : Z) :
  strconv.digits_value ds acc = Some v ->
  Forall (fun c => is_digit c = true) ds.
Proof.
  revert acc. induction ds as [|c ds IH]; intros acc; simpl; [constructor|].
  destruct (is_digit c) eqn:E; [|discriminate].
  intros H. constructor; [exact E|exact (IH _ H)].
Qed.

Lemma scan_digits (ds rest : list ascii) :
  forall acc frac sawdot sd v,
  strconv.digits_value ds acc = Some v ->
  strconv.scan_mantissa 10 (ds ++ rest) acc frac sawdot sd
  = strconv.scan_mantissa 10 rest v
      (if sawdot then frac + Z.of_nat (List.length ds) else frac) sawdot
      (sd || negb (match ds with [] => true | _ => false end)).
Proof.
  induction ds as [|c ds IH]; intros acc frac sawdot sd v; simpl.
  - intros [= <-]. rewrite orb_false_r.
    destruct sawdot; rewrite ?Z.add_0_r; reflexivity.
  - destruct (is_digit c) eqn:Ed; [|discriminate]. intros Hv.
    destruct (digit_byte c Ed) as (-> & -> & _).
    rewrite (IH _ _ _ _ _ Hv), orb_true_r. f_equal.
    destruct sawdot; lia.
Qed.

Lemma scan_dot (rest : list ascii) (acc frac : Z) (sd : bool) :
  strconv.scan_mantissa 10 ("."%char :: rest) acc frac false sd
  = strconv.scan_mantissa 10 rest acc frac true sd.
Proof. reflexivity. Qed.

Lemma underscore_scan_plain (l : list ascii) :
  Forall (fun c => byte_eqb c "_" = false) l ->
  forall st, st <> strconv.SawUnderscore ->
  strconv.underscore_scan false l st = true.
Proof.
  induction 1 as [|c l Hc _ IH]; intros st Hst; simpl.
  - now destruct st.
  - rewrite ?andb_false_l, ?orb_false_r, Hc.
    destruct (is_digit c); [now apply IH|].
    destruct st; try (now apply IH). now elim Hst.
Qed.

(** A total [whole.ab], with [whole] one or more digits: its mantissa is
    the number of cents and its exponent is -2. *)
Lemma readFloat_cents (whole : list ascii) (a b : ascii) (n : Z) :
  whole <> [] ->
  strconv.digits_value whole 0 = Some n ->
  is_digit a = true -> is_digit b = true ->
  strconv.readFloat (whole ++ "."%char :: a :: b :: [])
  = Some {| strconv.pf_neg := false; strconv.pf_hex := false;
            strconv.pf_mant := cents_of n a b; strconv.pf_exp := -2 |}.
Proof.
  intros Hne Hn Ha Hb.
  pose proof (digits_value_Forall _ _ _ Hn) as Hall.
  assert (Hscan : strconv.scan_mantissa 10
            (whole ++ "."%char :: a :: b :: []) 0 0 false false
          = {| strconv.sm_mant := cents_of n a b; strconv.sm_frac := 2;
               strconv.sm_sawdot := true; strconv.sm_sawdigits := true;
               strconv.sm_rest := [] |}).
  { rewrite (scan_digits whole _ 0 0 false false n Hn).
    replace (negb match whole with [] => true | _ => false end) with true
      by (destruct whole; [congruence|reflexivity]).
    rewrite scan_dot.
    change (a :: b :: []) with ((a :: b :: []) ++ []).
    rewrite (scan_digits [a; b] [] n 0 true (false || true)
               ((n * 10 + strconv.digit_val a) * 10 + strconv.digit_val b)).
    2: { simpl. now rewrite Ha, Hb. }
    simpl. unfold cents_of. f_equal. lia. }
  assert (Hus : strconv.underscoreOK (whole ++ "."%char :: a :: b :: [])
                = true).
  { assert (Hplain : Forall (fun c => byte_eqb c "_" = false)
                       (whole ++ "."%char :: a :: b :: [])).
    { apply Forall_app. split.
      - eapply Forall_impl; [exact Hall|]. intros c Hc.
        now destruct (digit_byte c Hc).
      - repeat constructor; [now destruct (digit_byte a Ha)|
                             now destruct (digit_byte b Hb)]. }
    destruct whole as [|c0 whole']; [congruence|].
    inversion Hall as [|? ? Hc0 Hall']; subst.
    destruct (digit_byte c0 Hc0) as (_ & _ & Hm & Hp & _).
    unfold strconv.underscoreOK. rewrite <- app_comm_cons.
    cbv beta iota zeta. rewrite Hm, Hp. simpl orb. cbv iota.
    assert (Hc1 : exists c1 r, whole' ++ "."%char :: a :: b :: [] = c1 :: r /\
                  byte_eqb (lower c1) "b" = false /\
                  byte_eqb (lower c1) "o" = false /\
                  byte_eqb (lower c1) "x" = false).
    { destruct whole' as [|c1 w]; simpl.
      - exists "."%char, [a; b]. repeat split; reflexivity.
      - inversion Hall' as [|? ? Hc1 _]; subst.
        destruct (digit_byte c1 Hc1) as (_ & _ & _ & _ & Hx & Hb' & Ho & _).
        exists c1, (w ++ "."%char :: a :: b :: []). auto. }
    destruct Hc1 as (c1 & r & Hr & Hb1 & Ho1 & Hx1).
    rewrite <- app_comm_cons in Hplain.
    rewrite Hr in *. rewrite Hb1, Ho1, Hx1. simpl orb.
    rewrite andb_false_r.
    apply underscore_scan_plain; [exact Hplain|discriminate]. }
  destruct whole as [|c0 whole']; [congruence|].
  inversion Hall as [|? ? Hc0 Hall']; subst.
  assert (Hc1 : exists c1 c2 r,
            whole' ++ "."%char :: a :: b :: [] = c1 :: c2 :: r /\
            byte_eqb (lower c1) "x" = false).
  { destruct whole' as [|c1 [|c2 w]]; simpl.
    - exists "."%char, a, [b]. split; reflexivity.
    - inversion Hall' as [|? ? Hc1 _]; subst.
      destruct (digit_byte c1 Hc1) as (_ & _ & _ & _ & Hx & _).
      exists c1, "."%char, [a; b]. auto.
    - inversion Hall' as [|? ? Hc1 _]; subst.
      destruct (digit_byte c1 Hc1) as (_ & _ & _ & _ & Hx & _).
      exists c1, c2, (w ++ "."%char :: a :: b :: []). auto. }
  destruct Hc1 as (c1 & c2 & r & Hr & Hx1).
  simpl app in *.
  assert (Hsign :
    (match c0 :: whole' ++ "."%char :: a :: b :: [] with
     | "+"%char :: r0 => (false, r0)
     | "-"%char :: r0 => (true, r0)
     | _ => (false, c0 :: whole' ++ "."%char :: a :: b :: [])
     end) = (false, c0 :: whole' ++ "."%char :: a :: b :: [])).
  { clear - Hc0. destruct c0 as [[] [] [] [] [] [] [] []];
      try discriminate; reflexivity. }
  unfold strconv.readFloat. rewrite Hsign.
  rewrite Hr in *. rewrite Hx1, andb_false_r.
  cbv iota. rewrite Hscan. cbn [strconv.sm_sawdigits negb strconv.sm_rest].
  cbv iota. cbn [strconv.read_exponent]. rewrite Hus.
  reflexivity.
Qed.

Lemma digits_value_nonneg (ds : list ascii) :
  forall acc v, strconv.digits_value ds acc = Some v -> 0 <= acc -> 0 <= v.
Proof.
  induction ds as [|c ds IH]; intros acc v; simpl.
  - intros [= <-]. auto.
  - destruct (is_digit c) eqn:Ed; [|discriminate]. intros Hv Hacc.
    destruct (digit_byte c Ed) as (_ & _ & _ & _ & _ & _ & _ & Hd).
    apply (IH _ _ Hv). lia.
Qed.

(** What [strconv.ParseFloat] returns on a total [whole.ab] worth a
    multiple of 25 cents below 2^53: the exact value, without error. *)
Lemma ParseFloat_quarters (s : string) (whole : list ascii) (a b : ascii)
    (n : Z) :
  bytes s = whole ++ "."%char :: a :: b :: [] ->
  whole <> [] ->
  strconv.digits_value whole 0 = Some n ->
  is_digit a = true -> is_digit b = true ->
  cents_of n a b < 2 ^ 53 ->
  cents_of n a b mod 25 = 0 ->
  strconv.ParseFloat s
  = (if cents_of n a b =? 0 then F64.zero
     else dyadic (cents_of n a b / 25) (-2), None).
Proof.
  intros Hs Hne Hn Ha Hb Hlt Hmod.
  pose proof (digits_value_nonneg _ _ _ Hn ltac:(lia)) as Hn0.
  destruct (digit_byte a Ha) as (_ & _ & _ & _ & _ & _ & _ & Hda).
  destruct (digit_byte b Hb) as (_ & _ & _ & _ & _ & _ & _ & Hdb).
  assert (Hc0 : 0 <= cents_of n a b) by (unfold cents_of; lia).
  unfold strconv.ParseFloat. rewrite Hs.
  assert (Hsp : strconv.special (whole ++ "."%char :: a :: b :: []) = None).
  { destruct whole as [|c0 w]; [congruence|].
    pose proof (digits_value_Forall _ _ _ Hn) as Hall.
    inversion Hall; subst. now apply special_digit. }
  rewrite Hsp, (readFloat_cents whole a b n Hne Hn Ha Hb).
  unfold strconv.float_of_parsed.
  cbn [strconv.pf_hex strconv.pf_exp strconv.pf_neg strconv.pf_mant].
  change (0 <=? -2) with false. cbv iota.
  change (10 ^ (- -2)) with 100.
  destruct (Z.eqb_spec (cents_of n a b) 0) as [-> | Hnz]; [reflexivity|].
  apply Z.mod_divide in Hmod; [|lia]. destruct Hmod as [k Hk].
  rewrite Hk in *. rewrite Z.div_mul by lia.
  replace (k * 25) with (25 * k) in * by lia.
  rewrite of_ratio_quarters by lia. reflexivity.
Qed.

(** ** Totals that are multiples of a quarter *)

(** For a total written [whole.ab] (digits, a point, two digits) worth
    a multiple of 25 cents below 2^53 cents, the float64 arithmetic of
    rules 2 and 3 is exact: the total parses without error, rule 3 adds its
    25 points, and rule 2 adds its 50 points exactly when the cents are a
    multiple of 100. *)
Theorem quarter_total_rules (r : Receipt) (whole : list ascii) (a b : ascii)
    (n : Z) :
  bytes (Total r) = whole ++ "."%char :: a :: b :: [] ->
  whole <> [] ->
  strconv.digits_value whole 0 = Some n ->
  is_digit a = true -> is_digit b = true ->
  cents_of n a b < 2 ^ 53 ->
  cents_of n a b mod 25 = 0 ->
  exists total,
    strconv.ParseFloat (Total r) = (total, None) /\
    (forall p, rule3 total p = GoInt.add p 25) /\
    (forall p, rule2 total None p =
               if cents_of n a b mod 100 =? 0 then GoInt.add p 50 else p) /\
    rules_1_3 r =
    GoInt.add
      (if cents_of n a b mod 100 =? 0
       then GoInt.add (countAlphanumeric (Retailer r)) 50
       else countAlphanumeric (Retailer r)) 25.
Proof.
  intros Hs Hne Hn Ha Hb Hlt Hmod.
  pose proof (ParseFloat_quarters _ _ _ _ _ Hs Hne Hn Ha Hb Hlt Hmod) as Hp.
  pose proof (digits_value_nonneg _ _ _ Hn ltac:(lia)) as Hn0.
  destruct (digit_byte a Ha) as (_ & _ & _ & _ & _ & _ & _ & Hda).
  destruct (digit_byte b Hb) as (_ & _ & _ & _ & _ & _ & _ & Hdb).
  assert (Hc0 : 0 <= cents_of n a b) by (unfold cents_of; lia).
  set (c := cents_of n a b) in *.
  assert (Hrules : forall total,
    total = (if c =? 0 then F64.zero else dyadic (c / 25) (-2)) ->
    (forall p, rule3 total p = GoInt.add p 25) /\
    (forall p, rule2 total None p =
               if c mod 100 =? 0 then GoInt.add p 50 else p)).
  { intros total ->.
    destruct (Z.eqb_spec c 0) as [-> | Hnz]; [split; reflexivity|].
    apply Z.mod_divide in Hmod; [|lia]. destruct Hmod as [k Hk].
    rewrite Hk in *. rewrite Z.div_mul by lia.
    split; intros p.
    - apply rule3_quarters. lia.
    - rewrite rule2_quarters by lia.
      replace (k * 25 mod 100 =? 0) with (k mod 4 =? 0); [reflexivity|].
      destruct (Z.eqb_spec (k mod 4) 0) as [E|E];
        destruct (Z.eqb_spec (k * 25 mod 100) 0) as [E'|E'];
        try reflexivity; exfalso.
      + apply E'. apply Z.mod_divide in E; [|lia]. destruct E as [j ->].
        replace (j * 4 * 25) with (j * 100) by lia. apply Z.mod_mul. lia.
      + apply E. apply Z.mod_divide in E'; [|lia]. destruct E' as [j Hj].
        replace k with (j * 4) by lia. apply Z.mod_mul. lia. }
  eexists. split; [exact Hp|].
  destruct (Hrules _ eq_refl) as [H3 H2].
  split; [exact H3|]. split; [exact H2|].
  unfold rules_1_3. rewrite Hp, rule1_points, H2, H3. reflexivity.
Qed.

Lemma quarter_total_rules_witness :
  exists total,
    strconv.ParseFloat (Total quarter_total_receipt) = (total, None) /\
    (forall p, rule3 total p = GoInt.add p 25) /\
    (forall p, rule2 total None p =
               if cents_of 7 "2" "5" mod 100 =? 0 then GoInt.add p 50
               else p) /\
    rules_1_3 quarter_total_receipt =
    GoInt.add
      (if cents_of 7 "2" "5" mod 100 =? 0
       then GoInt.add (countAlphanumeric (Retailer quarter_total_receipt)) 50
       else countAlphanumeric (Retailer quarter_total_receipt)) 25.
Proof.
  apply (quarter_total_rules quarter_total_receipt ["7"%char] "2" "5" 7);
    try reflexivity.
  discriminate.
Defined.

(** ** Rounding within one unit in the last place *)

Lemma round_nearest_even_cases (m : Z) (l : location) :
  round_nearest_even m l = m \/ round_nearest_even m l = m + 1.
Proof.
  destruct l as [|[]]; simpl; auto. destruct (Z.even m); auto.
Qed.

Lemma div_pow2_53 (m : Z) :
  0 < m -> 53 <= Zdigits2 m ->
  2 ^ 52 <= m / 2 ^ (Zdigits2 m - 53) < 2 ^ 53.
Proof.
  intros Hm Hd. pose proof (Zdigits2_bounds m Hm) as [Hl Hu].
  set (n := Zdigits2 m - 53) in *.
  assert (Hp : 0 < 2 ^ n) by (apply Z.pow_pos_nonneg; lia).
  replace (Zdigits2 m - 1) with (52 + n) in Hl by lia.
  replace (Zdigits2 m) with (53 + n) in Hu by lia.
  rewrite Z.pow_add_r in Hl, Hu by lia.
  split.
  - apply Z.div_le_lower_bound; lia.
  - apply Z.div_lt_upper_bound; lia.
Qed.

(** The first shift of a rounding, for a mantissa of 53 bits or more in
    the normal range. *)
Lemma shr_fexp_normal (m E : Z) (l : location) :
  0 < m -> 53 <= Zdigits2 m -> -1074 <= E ->
  exists mrs,
    shr_fexp F64.prec F64.emax m E l = (mrs, E + (Zdigits2 m - 53)) /\
    shr_m mrs = m / 2 ^ (Zdigits2 m - 53).
Proof.
  intros Hm Hd HE. unfold shr_fexp.
  replace (fexp F64.prec F64.emax (Zdigits2 m + E) - E)
    with (Zdigits2 m - 53)
    by (unfold fexp, emin, F64.prec, F64.emax; lia).
  unfold shr. destruct (Zdigits2 m - 53) as [|n|n] eqn:En; try lia.
  - eexists. split; [f_equal; lia|].
    rewrite shr_record_of_loc_m. simpl. now rewrite Z.div_1_r.
  - eexists. split; [reflexivity|].
    rewrite iter_shr_m; rewrite shr_record_of_loc_m; [reflexivity|lia].
Qed.

(** Rounding such a mantissa: the result is finite and normal, and its
    value is the mantissa cut to 53 bits, or one unit more. *)
Lemma round_aux_near (m E : Z) (l : location) :
  0 < m -> 53 <= Zdigits2 m -> -1074 <= E ->
  E + (Zdigits2 m - 53) <= 970 ->
  exists m2 mr er,
    binary_round_aux F64.prec F64.emax false m E l
      = S754_finite false mr er /\
    (m2 = m / 2 ^ (Zdigits2 m - 53) \/
     m2 = m / 2 ^ (Zdigits2 m - 53) + 1) /\
    2 ^ 52 <= Z.pos mr < 2 ^ 53 /\
    0 <= er - (E + (Zdigits2 m - 53)) <= 1 /\
    Z.pos mr * 2 ^ (er - (E + (Zdigits2 m - 53))) = m2.
Proof.
  intros Hm Hd HE Hmax.
  destruct (shr_fexp_normal m E l Hm Hd HE) as (mrs & Hshr & Hmrs).
  pose proof (div_pow2_53 m Hm Hd) as Hm1.
  set (n := Zdigits2 m - 53) in *. set (m1 := m / 2 ^ n) in *.
  unfold binary_round_aux. rewrite Hshr. rewrite Hmrs.
  set (m2 := round_nearest_even m1 (loc_of_shr_record mrs)).
  assert (Hm2 : m2 = m1 \/ m2 = m1 + 1) by apply round_nearest_even_cases.
  exists m2.
  destruct (Z.eq_dec m2 (2 ^ 53)) as [Hcarry|Hnc].
  - (* the increment carried into a 54th bit *)
    rewrite Hcarry. unfold shr_fexp.
    change (Zdigits2 (2 ^ 53)) with 54.
    replace (fexp F64.prec F64.emax (54 + (E + n)) - (E + n)) with 1
      by (unfold fexp, emin, F64.prec, F64.emax; lia).
    cbn [shr shr_record_of_loc SpecFloat.iter_pos].
    change (shr_1 {| shr_m := 2 ^ 53; shr_r := false; shr_s := false |})
      with {| shr_m := 2 ^ 52; shr_r := false; shr_s := false |}.
    cbn [shr_m]. change (2 ^ 52) with (Z.pos 4503599627370496).
    cbv iota.
    replace (E + n + 1 <=? F64.emax - F64.prec) with true
      by (symmetry; apply Z.leb_le; unfold F64.emax, F64.prec; lia).
    exists 4503599627370496%positive, (E + n + 1).
    split; [reflexivity|]. split; [lia|].
    split; [split; [lia|reflexivity]|]. split; [lia|].
    replace (E + n + 1 - (E + n)) with 1 by lia. reflexivity.
  - assert (Hr : 2 ^ 52 <= m2 < 2 ^ 53) by lia.
    assert (Hd2 : Zdigits2 m2 = 53)
      by (apply Zdigits2_unique; [exact Hr|lia]).
    unfold shr_fexp. rewrite Hd2.
    replace (fexp F64.prec F64.emax (53 + (E + n)) - (E + n)) with 0
      by (unfold fexp, emin, F64.prec, F64.emax; lia).
    cbn [shr shr_record_of_loc shr_m].
    destruct m2 as [|p2|p2] eqn:E2; try lia.
    replace (E + n <=? F64.emax - F64.prec) with true
      by (symmetry; apply Z.leb_le; unfold F64.emax, F64.prec; lia).
    exists p2, (E + n).
    split; [reflexivity|]. split; [lia|]. split; [lia|]. split; [lia|].
    replace (E + n - (E + n)) with 0 by lia. simpl. lia.
Qed.

(** The float64 read from [c] cents, for any [c] below 2^48: a normal
    number within three units in the last place of [c / 100], stated on
    the integers [100 * mantissa] and [c * 2^(-exponent)]. *)
Lemma of_ratio_near (c : Z) :
  0 < c < 2 ^ 48 ->
  exists mf ef,
    F64.of_ratio false c 100 = S754_finite false mf ef /\
    2 ^ 52 <= Z.pos mf < 2 ^ 53 /\
    -59 <= ef <= -10 /\
    -300 <= 100 * Z.pos mf - c * 2 ^ (- ef) <= 300.
Proof.
  intros Hc.
  pose proof (Zdigits2_bounds c ltac:(lia)) as [Hl Hu].
  assert (Hdc : 0 < Zdigits2 c <= 48).
  { split; [destruct c; simpl; lia|].
    destruct (Z_le_gt_dec (Zdigits2 c) 48) as [|Hgt]; [assumption|exfalso].
    assert (2 ^ 48 <= 2 ^ (Zdigits2 c - 1))
      by (apply Z.pow_le_mono_r; lia). lia. }
  unfold F64.of_ratio. destruct c as [|pc|pc] eqn:Ec; try lia.
  rewrite <- Ec in *. clear Ec pc.
  unfold SFdiv_core_binary. change (Zdigits2 100) with 7.
  set (dc := Zdigits2 c) in *.
  replace (Z.min (fexp F64.prec F64.emax (dc + 0 - (7 + 0))) (0 - 0))
    with (dc - 60) by (unfold fexp, emin, F64.prec, F64.emax; lia).
  replace (0 - 0 - (dc - 60)) with (60 - dc) by lia.
  destruct (60 - dc) as [|s|s] eqn:Es; try lia.
  rewrite Z.shiftl_mul_pow2 by lia.
  assert (Hcs : 2 ^ 59 <= c * 2 ^ Z.pos s < 2 ^ 60).
  { replace 59 with ((dc - 1) + Z.pos s) by lia.
    replace 60 with (dc + Z.pos s) by lia.
    rewrite !Z.pow_add_r by lia.
    assert (0 < 2 ^ Z.pos s) by (apply Z.pow_pos_nonneg; lia). nia. }
  pose proof (Z.div_eucl_eq (c * 2 ^ Z.pos s) 100 ltac:(lia)) as Heq.
  pose proof (Z.mod_pos_bound (c * 2 ^ Z.pos s) 100 ltac:(lia)) as Hb.
  unfold Z.modulo in Hb.
  destruct (Z.div_eucl (c * 2 ^ Z.pos s) 100) as [q r].
  assert (Hq : 2 ^ 52 <= q < 2 ^ 54) by lia.
  assert (Hdq : Zdigits2 q = 53 \/ Zdigits2 q = 54).
  { destruct (Z_lt_le_dec q (2 ^ 53)).
    - left. apply Zdigits2_unique; simpl; lia.
    - right. apply Zdigits2_unique; simpl; lia. }
  destruct (round_aux_near q (dc - 60) (new_location 100 r))
    as (m2 & mr & er & Hres & Hm2 & Hmr & Her & Hval); try lia.
  exists mr, er. split; [exact Hres|]. split; [exact Hmr|].
  split; [lia|].
  (* the exponent of the result, one of three *)
  assert (Hpow : c * 2 ^ (- er) * 2 ^ (er - (dc - 60)) = c * 2 ^ Z.pos s).
  { rewrite <- Z.mul_assoc, <- Z.pow_add_r by lia. f_equal. f_equal. lia. }
  set (X := c * 2 ^ (- er)) in *.
  destruct Hdq as [Hd | Hd]; rewrite Hd in *.
  - change (2 ^ (53 - 53)) with 1 in Hm2. rewrite Z.div_1_r in Hm2.
    assert (Hcase : er - (dc - 60 + (53 - 53)) = 0 \/
                    er - (dc - 60 + (53 - 53)) = 1) by lia.
    destruct Hcase as [H0 | H1].
    + rewrite H0 in Hval. replace (er - (dc - 60)) with 0 in Hpow by lia.
      simpl in Hval, Hpow. lia.
    + rewrite H1 in Hval. replace (er - (dc - 60)) with 1 in Hpow by lia.
      change (2 ^ 1) with 2 in *. lia.
  - change (2 ^ (54 - 53)) with 2 in Hm2.
    pose proof (Z.div_mod q 2 ltac:(lia)) as Hq2.
    pose proof (Z.mod_pos_bound q 2 ltac:(lia)) as Hq2b.
    assert (Hcase : er - (dc - 60 + (54 - 53)) = 0 \/
                    er - (dc - 60 + (54 - 53)) = 1) by lia.
    destruct Hcase as [H0 | H1].
    + rewrite H0 in Hval. replace (er - (dc - 60)) with 1 in Hpow by lia.
      change (2 ^ 1) with 2 in *. simpl in Hval. lia.
    + rewrite H1 in Hval. replace (er - (dc - 60)) with 2 in Hpow by lia.
      change (2 ^ 1) with 2 in *. change (2 ^ 2) with 4 in *. lia.
Qed.

Lemma Zdigits2_le (z k : Z) : 0 < z < 2 ^ k -> Zdigits2 z <= k.
Proof.
  intros Hz. pose proof (Zdigits2_bounds z ltac:(lia)) as [Hl Hu].
  destruct (Z_le_gt_dec (Zdigits2 z) k) as [|Hgt]; [assumption|exfalso].
  assert (2 ^ k <= 2 ^ (Zdigits2 z - 1)) by (apply Z.pow_le_mono_r; lia).
  lia.
Qed.

(** Normalizing a positive integer mantissa, away from the subnormal
    numbers and from overflow, gives a finite number that is not zero. *)
Lemma normalize_finite (r e : Z) :
  0 < r -> -1000 <= e -> e + Zdigits2 r <= 900 ->
  exists m' e',
    binary_normalize F64.prec F64.emax r e false = S754_finite false m' e'.
Proof.
  intros Hr He Hmax.
  assert (Hd0 : 0 < Zdigits2 r) by (destruct r; simpl; lia).
  destruct r as [|p|p] eqn:Er; try lia. rewrite <- Er in *.
  unfold binary_normalize. rewrite Er. unfold binary_round.
  change (Z.pos (digits2_pos p)) with (Zdigits2 (Z.pos p)).
  rewrite <- Er. set (d := Zdigits2 r) in *.
  replace (fexp F64.prec F64.emax (d + e)) with (d + e - 53)
    by (unfold fexp, emin, F64.prec, F64.emax; lia).
  unfold shl_align.
  destruct (d + e - 53 - e) as [|n|n] eqn:En.
  - rewrite <- Er. replace r with (r * 2 ^ 0) by (simpl; lia).
    assert (Hr53 : r < 2 ^ 53).
    { pose proof (Zdigits2_bounds r ltac:(lia)) as [_ Hu]. fold d in Hu.
      replace d with 53 in Hu by lia. exact Hu. }
    rewrite round_exact by (fold d; lia). unfold dyadic. eauto.
  - rewrite <- Er.
    destruct (round_aux_near r e loc_Exact) as (m2 & mr & er & Hres & _);
      try (fold d; lia).
    rewrite Hres. eauto.
  - rewrite iter_xO_value, <- Er.
    assert (Hr53 : r < 2 ^ 53).
    { pose proof (Zdigits2_bounds r ltac:(lia)) as [_ Hu]. fold d in Hu.
      apply Z.lt_le_trans with (1 := Hu). apply Z.pow_le_mono_r; lia. }
    rewrite round_exact by (fold d; lia). unfold dyadic. eauto.
Qed.

(** The product by 100 of a float64 near [c / 100] is within half a unit
    of [c]; stated on integers, in units of [2^(ef - 46)]. *)
Lemma mul100_near (mf : positive) (ef c : Z) :
  2 ^ 52 <= Z.pos mf < 2 ^ 53 -> -59 <= ef <= -10 ->
  -300 <= 100 * Z.pos mf - c * 2 ^ (- ef) <= 300 ->
  exists mg eg,
    F64.mul (S754_finite false mf ef) F64.c100 = S754_finite false mg eg /\
    ef - 46 <= eg <= ef + 8 /\
    - 2 ^ 55 < Z.pos mg * 2 ^ (eg - (ef - 46)) - c * 2 ^ (46 - ef) < 2 ^ 55.
Proof.
  intros Hmf Hef Hnear.
  unfold F64.mul, F64.c100, SFmul. simpl xorb. rewrite Pos2Z.inj_mul.
  set (P := Z.pos mf * 7036874417766400).
  assert (HP : 2 ^ 104 <= P < 2 ^ 106) by (unfold P; lia).
  assert (HdP : Zdigits2 P = 105 \/ Zdigits2 P = 106).
  { destruct (Z_lt_le_dec P (2 ^ 105)).
    - left. apply Zdigits2_unique; simpl; lia.
    - right. apply Zdigits2_unique; simpl; lia. }
  destruct (round_aux_near P (ef + -46) loc_Exact)
    as (m2 & mg & eg & Hres & Hm2 & Hmg & Heg & Hval); try lia.
  exists mg, eg. split; [exact Hres|]. split; [lia|].
  assert (Hc46 : c * 2 ^ (46 - ef) = c * 2 ^ (- ef) * 2 ^ 46).
  { rewrite <- Z.mul_assoc, <- Z.pow_add_r by lia. f_equal. f_equal. lia. }
  rewrite Hc46. set (X := c * 2 ^ (- ef)) in *.
  assert (HPX : - (300 * 2 ^ 46) <= P - X * 2 ^ 46 <= 300 * 2 ^ 46).
  { unfold P. change 7036874417766400 with (100 * 2 ^ 46). lia. }
  destruct HdP as [Hd | Hd]; rewrite Hd in *.
  - change (105 - 53) with 52 in *.
    pose proof (Z.div_mod P (2 ^ 52) ltac:(lia)) as Hdm.
    pose proof (Z.mod_pos_bound P (2 ^ 52) ltac:(lia)) as Hmb.
    assert (Hcase : eg - (ef + -46 + 52) = 0 \/ eg - (ef + -46 + 52) = 1)
      by lia.
    destruct Hcase as [H0 | H1].
    + rewrite H0 in Hval. replace (eg - (ef - 46)) with 52 by lia.
      simpl Z.pow in Hval. lia.
    + rewrite H1 in Hval. replace (eg - (ef - 46)) with 53 by lia.
      change (2 ^ 1) with 2 in Hval. change (2 ^ 53) with (2 * 2 ^ 52). lia.
  - change (106 - 53) with 53 in *.
    pose proof (Z.div_mod P (2 ^ 53) ltac:(lia)) as Hdm.
    pose proof (Z.mod_pos_bound P (2 ^ 53) ltac:(lia)) as Hmb.
    assert (Hcase : eg - (ef + -46 + 53) = 0 \/ eg - (ef + -46 + 53) = 1)
      by lia.
    destruct Hcase as [H0 | H1].
    + rewrite H0 in Hval. replace (eg - (ef - 46)) with 53 by lia.
      simpl Z.pow in Hval. lia.
    + rewrite H1 in Hval. replace (eg - (ef - 46)) with 54 by lia.
      change (2 ^ 1) with 2 in Hval. change (2 ^ 54) with (2 * 2 ^ 53). lia.
Qed.

(** A float64 within half a unit of an integer that is not a multiple of
    25 has a remainder by 25 that is not zero. *)
Lemma Mod25_nonzero (mg : positive) (eg ef c : Z) :
  -59 <= ef <= -10 -> ef - 46 <= eg <= ef + 8 ->
  - 2 ^ 55 < Z.pos mg * 2 ^ (eg - (ef - 46)) - c * 2 ^ (46 - ef) < 2 ^ 55 ->
  c mod 25 <> 0 ->
  F64.eqb (F64.Mod (S754_finite false mg eg) F64.c25) F64.zero = false.
Proof.
  intros Hef Heg Hnear Hc.
  unfold F64.Mod, F64.c25.
  set (e0 := Z.min eg (-48)).
  assert (He0 : ef - 46 <= e0 /\ e0 <= eg /\ e0 <= -48) by (unfold e0; lia).
  replace (7036874417766400 * 2 ^ (-48 - e0)) with (25 * 2 ^ (- e0)).
  2: { change 7036874417766400 with (25 * 2 ^ 48).
       rewrite <- Z.mul_assoc, <- Z.pow_add_r by lia. f_equal. f_equal. lia. }
  assert (Hp0 : 0 < 2 ^ (- e0)) by (apply Z.pow_pos_nonneg; lia).
  set (r := (Z.pos mg * 2 ^ (eg - e0)) mod (25 * 2 ^ (- e0))).
  assert (Hrb : 0 <= r < 25 * 2 ^ (- e0))
    by (apply Z.mod_pos_bound; lia).
  assert (Hr : r <> 0).
  { intros Hr0. apply Hc.
    apply Z.mod_divide in Hr0; [|lia]. destruct Hr0 as [j Hj].
    (* in units of 2^(ef - 46): the float is 25 j, and c is within 1/2 *)
    set (U := 2 ^ (46 - ef)) in *.
    assert (HU : 2 ^ 56 <= U) by (apply Z.pow_le_mono_r; lia).
    assert (HG : Z.pos mg * 2 ^ (eg - (ef - 46)) = 25 * j * U).
    { replace (eg - (ef - 46)) with ((eg - e0) + (e0 - (ef - 46))) by lia.
      rewrite Z.pow_add_r, Z.mul_assoc, Hj by lia.
      unfold U. replace (46 - ef) with (- e0 + (e0 - (ef - 46))) by lia.
      rewrite Z.pow_add_r by lia. lia. }
    rewrite HG in Hnear.
    assert (H25 : c = 25 * j) by nia.
    rewrite H25, Z.mul_comm. apply Z.mod_mul. lia. }
  unfold cond_Zopp.
  destruct (normalize_finite r e0) as (m' & e' & ->); try lia.
  - assert (Hr' : r < 2 ^ (5 + - e0)).
    { rewrite Z.pow_add_r by lia. change (2 ^ 5) with 32. lia. }
    pose proof (Zdigits2_le r (5 + - e0) ltac:(lia)). lia.
  - reflexivity.
Qed.

(** Rule 3 on a total read from [c] cents, [c] not a multiple of 25. *)
Lemma rule3_not_quarter (c p : Z) (mf : positive) (ef : Z) :
  0 < c ->
  2 ^ 52 <= Z.pos mf < 2 ^ 53 -> -59 <= ef <= -10 ->
  -300 <= 100 * Z.pos mf - c * 2 ^ (- ef) <= 300 ->
  c mod 25 <> 0 ->
  rule3 (S754_finite false mf ef) p = p.
Proof.
  intros Hc Hmf Hef Hnear Hmod. unfold rule3.
  destruct (mul100_near mf ef c Hmf Hef Hnear) as (mg & eg & -> & Heg & HG).
  now rewrite (Mod25_nonzero mg eg ef c).
Qed.

(** Rule 2 on a total read from [c] cents, [c] not a multiple of 100. *)
Lemma rule2_not_whole (c p : Z) (mf : positive) (ef : Z) :
  0 < c ->
  2 ^ 52 <= Z.pos mf < 2 ^ 53 -> -59 <= ef <= -10 ->
  -300 <= 100 * Z.pos mf - c * 2 ^ (- ef) <= 300 ->
  c mod 100 <> 0 ->
  rule2 (S754_finite false mf ef) None p = p.
Proof.
  intros Hc Hmf Hef Hnear Hmod. unfold rule2. simpl is_nil.
  rewrite andb_true_l.
  assert (Hp : 2 ^ 10 <= 2 ^ (- ef)) by (apply Z.pow_le_mono_r; lia).
  assert (Hint : F64.to_int (S754_finite false mf ef)
                 = Z.pos mf / 2 ^ (- ef)).
  { unfold F64.to_int, F64.trunc, cond_Zopp.
    replace (0 <=? ef) with false by (symmetry; apply Z.leb_gt; lia).
    assert (0 <= Z.pos mf / 2 ^ (- ef) <= Z.pos mf)
      by (split; [apply Z.div_pos; lia|
                  apply Z.div_le_upper_bound; nia]).
    replace (GoInt.in_range (Z.pos mf / 2 ^ (- ef))) with true;
      [reflexivity|].
    symmetry. unfold GoInt.in_range, GoInt.min_int, GoInt.max_int.
    apply andb_true_iff. split; apply Z.leb_le; lia. }
  rewrite Hint. set (N := Z.pos mf / 2 ^ (- ef)).
  assert (HN : 0 <= N < 2 ^ 53).
  { unfold N. split; [apply Z.div_pos; lia|].
    apply Z.div_lt_upper_bound; nia. }
  destruct (F64.eqb (S754_finite false mf ef) (F64.of_int N)) eqn:E;
    [exfalso|reflexivity].
  destruct (Z.eq_dec N 0) as [H0|H0]; [rewrite H0 in E; discriminate E|].
  pose proof (Zdigits2_small N ltac:(lia)) as HdN.
  rewrite of_int_dyadic in E by lia. unfold dyadic in E.
  apply eqb_finite_inv in E as [He Hm].
  apply (f_equal Z.pos) in Hm.
  destruct (dyadic_mantissa N ltac:(lia)) as [HmN|]; [|lia].
  rewrite HmN in Hm.
  replace (53 - Zdigits2 N) with (- ef) in Hm by lia.
  rewrite Hm in Hnear.
  assert (H100 : c = 100 * N) by nia.
  apply Hmod. rewrite H100, Z.mul_comm. apply Z.mod_mul. lia.
Qed.

(** What [strconv.ParseFloat] does with a text [whole.ab]: the float64
    nearest to the cents divided by 100. *)
Lemma ParseFloat_cents (s : string) (whole : list ascii) (a b : ascii)
    (n : Z) :
  bytes s = whole ++ "."%char :: a :: b :: [] ->
  whole <> [] ->
  strconv.digits_value whole 0 = Some n ->
  is_digit a = true -> is_digit b = true ->
  0 <= cents_of n a b /\
  strconv.ParseFloat s
  = match F64.of_ratio false (cents_of n a b) 100 with
    | S754_infinity sg => (S754_infinity sg, Some strconv.ErrRange)
    | v => (v, None)
    end.
Proof.
  intros Hs Hne Hn Ha Hb.
  pose proof (digits_value_nonneg _ _ _ Hn ltac:(lia)) as Hn0.
  destruct (digit_byte a Ha) as (_ & _ & _ & _ & _ & _ & _ & Hda).
  destruct (digit_byte b Hb) as (_ & _ & _ & _ & _ & _ & _ & Hdb).
  split; [unfold cents_of; lia|].
  unfold strconv.ParseFloat. rewrite Hs.
  assert (Hsp : strconv.special (whole ++ "."%char :: a :: b :: []) = None).
  { destruct whole as [|c0 w]; [congruence|].
    pose proof (digits_value_Forall _ _ _ Hn) as Hall.
    inversion Hall; subst. now apply special_digit. }
  rewrite Hsp, (readFloat_cents whole a b n Hne Hn Ha Hb).
  unfold strconv.float_of_parsed.
  cbn [strconv.pf_hex strconv.pf_exp strconv.pf_neg strconv.pf_mant].
  change (0 <=? -2) with false. cbv iota.
  change (10 ^ (- -2)) with 100. reflexivity.
Qed.

(** Rules 2 and 3 on the float64 read from a multiple of 25 cents. *)
Lemma quarter_rules (c : Z) :
  0 <= c < 2 ^ 53 -> c mod 25 = 0 ->
  F64.of_ratio false c 100
    = (if c =? 0 then F64.zero else dyadic (c / 25) (-2)) /\
  (forall p, rule3 (F64.of_ratio false c 100) p = GoInt.add p 25) /\
  (forall p, rule2 (F64.of_ratio false c 100) None p =
             if c mod 100 =? 0 then GoInt.add p 50 else p).
Proof.
  intros Hc Hmod.
  destruct (Z.eqb_spec c 0) as [-> | Hnz]; [repeat split; reflexivity|].
  apply Z.mod_divide in Hmod; [|lia]. destruct Hmod as [k Hk].
  rewrite Hk in *. rewrite Z.div_mul by lia.
  replace (k * 25) with (25 * k) in * by lia.
  rewrite of_ratio_quarters by lia.
  split; [reflexivity|]. split; intros p.
  - apply rule3_quarters. lia.
  - rewrite rule2_quarters by lia.
    replace (25 * k mod 100 =? 0) with (k mod 4 =? 0); [reflexivity|].
    destruct (Z.eqb_spec (k mod 4) 0) as [E|E];
      destruct (Z.eqb_spec (25 * k mod 100) 0) as [E'|E'];
      try reflexivity; exfalso.
    + apply E'. apply Z.mod_divide in E; [|lia]. destruct E as [j ->].
      replace (25 * (j * 4)) with (j * 100) by lia. apply Z.mod_mul. lia.
    + apply E. apply Z.mod_divide in E'; [|lia]. destruct E' as [j Hj].
      replace k with (j * 4) by lia. apply Z.mod_mul. lia.
Qed.

(** Rules 2 and 3 on the float64 read from [c] cents. *)
Lemma cents_rules (c : Z) :
  0 <= c < 2 ^ 48 ->
  (forall p, rule3 (F64.of_ratio false c 100) p =
             if c mod 25 =? 0 then GoInt.add p 25 else p) /\
  (forall p, rule2 (F64.of_ratio false c 100) None p =
             if c mod 100 =? 0 then GoInt.add p 50 else p).
Proof.
  intros Hc.
  destruct (Z.eqb_spec (c mod 25) 0) as [H25|H25].
  - destruct (quarter_rules c ltac:(lia) H25) as (_ & H3 & H2).
    split; assumption.
  - assert (Hcpos : 0 < c).
    { destruct (Z.eq_dec c 0) as [E|]; [|lia]. now rewrite E in H25. }
    assert (H100 : c mod 100 <> 0).
    { intros E. apply H25. apply Z.mod_divide in E; [|lia].
      destruct E as [j ->]. replace (j * 100) with (j * 4 * 25) by lia.
      apply Z.mod_mul. lia. }
    destruct (of_ratio_near c ltac:(lia))
      as (mf & ef & Hv & Hmf & Hef & Hnear).
    rewrite Hv. split; intros p.
    + now apply (rule3_not_quarter c).
    + rewrite (rule2_not_whole c) by assumption.
      now destruct (Z.eqb_spec (c mod 100) 0).
Qed.

(** ** Rules 2 and 3 on every ordinary total *)

(** For every total written [whole.ab] (digits, a point, two digits) below
    2^48 cents, rules 2 and 3 do in float64 what they say on the cents:
    the total parses without error, rule 3 adds 25 points exactly when the
    cents are a multiple of 25, and rule 2 adds 50 points exactly when
    they are a multiple of 100. *)
Theorem two_decimal_total_rules (r : Receipt) (whole : list ascii)
    (a b : ascii) (n : Z) :
  bytes (Total r) = whole ++ "."%char :: a :: b :: [] ->
  whole <> [] ->
  strconv.digits_value whole 0 = Some n ->
  is_digit a = true -> is_digit b = true ->
  cents_of n a b < 2 ^ 48 ->
  exists total,
    strconv.ParseFloat (Total r) = (total, None) /\
    (forall p, rule3 total p =
               if cents_of n a b mod 25 =? 0 then GoInt.add p 25 else p) /\
    (forall p, rule2 total None p =
               if cents_of n a b mod 100 =? 0 then GoInt.add p 50 else p) /\
    rules_1_3 r =
    let points := countAlphanumeric (Retailer r) in
    let points := if cents_of n a b mod 100 =? 0
                  then GoInt.add points 50 else points in
    if cents_of n a b mod 25 =? 0 then GoInt.add points 25 else points.
Proof.
  intros Hs Hne Hn Ha Hb Hlt.
  destruct (ParseFloat_cents _ _ _ _ _ Hs Hne Hn Ha Hb) as [Hc0 Hp].
  set (c := cents_of n a b) in *.
  assert (Hgoal : exists total,
    strconv.ParseFloat (Total r) = (total, None) /\
    (forall p, rule3 total p = if c mod 25 =? 0 then GoInt.add p 25 else p) /\
    (forall p, rule2 total None p =
               if c mod 100 =? 0 then GoInt.add p 50 else p)).
  { destruct (cents_rules c ltac:(lia)) as [H3 H2].
    exists (F64.of_ratio false c 100). split; [|split; assumption].
    rewrite Hp. destruct (Z.eq_dec c 0) as [-> | Hnz]; [reflexivity|].
    destruct (of_ratio_near c ltac:(lia)) as (mf & ef & -> & _).
    reflexivity. }
  destruct Hgoal as (total & Hparse & H3 & H2).
  exists total. split; [exact Hparse|]. split; [exact H3|].
  split; [exact H2|].
  unfold rules_1_3. rewrite Hparse, rule1_points, H2, H3. reflexivity.
Qed.

Lemma two_decimal_total_rules_witness :
  exists total,
    strconv.ParseFloat (Total target_receipt) = (total, None) /\
    (forall p, rule3 total p =
               if cents_of 35 "3" "5" mod 25 =? 0 then GoInt.add p 25
               else p) /\
    (forall p, rule2 total None p =
               if cents_of 35 "3" "5" mod 100 =? 0 then GoInt.add p 50
               else p) /\
    rules_1_3 target_receipt =
    let points := countAlphanumeric (Retailer target_receipt) in
    let points := if cents_of 35 "3" "5" mod 100 =? 0
                  then GoInt.add points 50 else points in
    if cents_of 35 "3" "5" mod 25 =? 0 then GoInt.add points 25 else points.
Proof.
  apply (two_decimal_total_rules target_receipt
           ["3"%char; "5"%char] "3" "5" 35);
    try reflexivity.
  discriminate.
Defined.

(** ** Rounding down *)

Lemma shr_1_r (mrs : shr_record) :
  0 <= shr_m mrs -> shr_r (shr_1 mrs) = Z.testbit (shr_m mrs) 0.
Proof.
  destruct mrs as [m r s]. simpl. intros Hm.
  destruct m as [|[p|p|]|p]; try reflexivity; lia.
Qed.

(** The round bit after a shift by [n] is bit [n - 1] of the mantissa. *)
Lemma iter_shr_r (n : positive) (mrs : shr_record) :
  0 <= shr_m mrs ->
  shr_r (SpecFloat.iter_pos shr_1 n mrs)
  = Z.testbit (shr_m mrs) (Z.pos n - 1).
Proof.
  revert mrs. induction n as [n IH|n IH|]; intros mrs Hm;
    cbn [SpecFloat.iter_pos].
  - assert (H1 : 0 <= shr_m (shr_1 mrs))
      by (rewrite shr_1_m by assumption; apply Z.div_pos; lia).
    assert (H2 : 0 <= shr_m (SpecFloat.iter_pos shr_1 n (shr_1 mrs)))
      by (rewrite iter_shr_m by assumption; apply Z.div_pos; lia).
    rewrite IH, iter_shr_m, shr_1_m by assumption.
    rewrite Z.div_pow2_bits by lia.
    change (shr_m mrs / 2) with (shr_m mrs / 2 ^ 1).
    rewrite Z.div_pow2_bits by lia. f_equal. lia.
  - assert (H2 : 0 <= shr_m (SpecFloat.iter_pos shr_1 n mrs))
      by (rewrite iter_shr_m by assumption; apply Z.div_pos; lia).
    rewrite IH, iter_shr_m by assumption.
    rewrite Z.div_pow2_bits by lia. f_equal. lia.
  - now apply shr_1_r.
Qed.

Lemma testbit_below_half (m n : Z) :
  0 <= m -> 0 < n -> m mod 2 ^ n < 2 ^ (n - 1) ->
  Z.testbit m (n - 1) = false.
Proof.
  intros Hm Hn Hlow. apply Z.testbit_false; [lia|].
  assert (Hp : 0 < 2 ^ (n - 1)) by (apply Z.pow_pos_nonneg; lia).
  assert (H2 : 2 ^ n = 2 * 2 ^ (n - 1)).
  { rewrite <- Z.pow_succ_r by lia. f_equal. lia. }
  pose proof (Z.div_mod m (2 ^ n) ltac:(lia)) as Hdm.
  pose proof (Z.mod_pos_bound m (2 ^ n) ltac:(lia)) as Hmb.
  assert (Hq : m / 2 ^ (n - 1) = 2 * (m / 2 ^ n)).
  { symmetry. apply Z.div_unique with (m mod 2 ^ n); [lia|].
    rewrite H2 in Hdm at 1. lia. }
  rewrite Hq, Z.mul_comm. apply Z.mod_mul. lia.
Qed.

(** A mantissa whose cut-off bits are below half a unit is rounded
    down: the result is the mantissa cut to 53 bits. *)
Lemma round_aux_down (m E : Z) :
  0 < m -> 53 < Zdigits2 m -> -1074 <= E ->
  E + (Zdigits2 m - 53) <= 971 ->
  m mod 2 ^ (Zdigits2 m - 53) < 2 ^ (Zdigits2 m - 53 - 1) ->
  binary_round_aux F64.prec F64.emax false m E loc_Exact
  = S754_finite false (Z.to_pos (m / 2 ^ (Zdigits2 m - 53)))
      (E + (Zdigits2 m - 53)).
Proof.
  intros Hm Hd HE Hmax Hlow.
  pose proof (div_pow2_53 m Hm ltac:(lia)) as Hm1.
  set (n := Zdigits2 m - 53) in *. set (m1 := m / 2 ^ n) in *.
  unfold binary_round_aux, shr_fexp at 1.
  replace (fexp F64.prec F64.emax (Zdigits2 m + E) - E) with n
    by (unfold fexp, emin, F64.prec, F64.emax, n; lia).
  unfold shr at 1. destruct n as [|pn|pn] eqn:En; try lia.
  cbn [shr_record_of_loc].
  set (mrs := SpecFloat.iter_pos shr_1 pn
                {| shr_m := m; shr_r := false; shr_s := false |}).
  assert (Hmrs_m : shr_m mrs = m1)
    by (unfold mrs; rewrite iter_shr_m; simpl; [reflexivity|lia]).
  assert (Hmrs_r : shr_r mrs = false).
  { unfold mrs. rewrite iter_shr_r by (simpl; lia). simpl shr_m.
    apply testbit_below_half; lia. }
  assert (Hround : round_nearest_even (shr_m mrs) (loc_of_shr_record mrs)
                   = m1).
  { rewrite Hmrs_m. destruct mrs as [mm rr ss]. simpl in Hmrs_r.
    subst rr. now destruct ss. }
  rewrite Hround.
  assert (Hd1 : Zdigits2 m1 = 53) by (apply Zdigits2_unique; lia).
  unfold shr_fexp. rewrite Hd1.
  replace (fexp F64.prec F64.emax (53 + (E + Z.pos pn)) - (E + Z.pos pn))
    with 0 by (unfold fexp, emin, F64.prec, F64.emax; lia).
  cbn [shr shr_record_of_loc shr_m].
  destruct m1 as [|p1|p1] eqn:E1; try lia.
  replace (E + Z.pos pn <=? F64.emax - F64.prec) with true
    by (symmetry; apply Z.leb_le; unfold F64.emax, F64.prec; lia).
  reflexivity.
Qed.

(** ** Rule 5 on an ordinary price *)

(** The constant 0.2 is [(2^55 + 2) / 5] units of 2^-55: slightly more
    than a fifth.  The product of [5 * j] by it is rounded down to [j]. *)
Lemma mul02_fifth (j : Z) :
  0 < j < 2 ^ 48 -> F64.mul (dyadic (5 * j) 0) F64.c0_2 = dyadic j 0.
Proof.
  intros Hj.
  pose proof (Zdigits2_small j ltac:(lia)) as Hdj.
  pose proof (Zdigits2_small (5 * j) ltac:(lia)) as Hd5.
  pose proof (Zdigits2_bounds j ltac:(lia)) as [Hlj Huj].
  pose proof (Zdigits2_le j 48 ltac:(lia)) as Hdj48.
  unfold F64.mul, F64.c0_2, SFmul. unfold dyadic at 1. simpl xorb.
  rewrite Pos2Z.inj_mul.
  destruct (dyadic_mantissa (5 * j) ltac:(lia)) as [-> |]; [|lia].
  set (dj := Zdigits2 j) in *. set (d5 := Zdigits2 (5 * j)) in *.
  set (k := 53 - d5) in *.
  assert (Hk : 0 < 2 ^ k) by (apply Z.pow_pos_nonneg; lia).
  set (n := dj + k + 2).
  assert (Hq : 0 < 2 ^ (53 - dj)) by (apply Z.pow_pos_nonneg; lia).
  assert (Hn1 : 2 ^ (n - 1) = 2 ^ dj * (2 * 2 ^ k)).
  { unfold n. replace (dj + k + 2 - 1) with (dj + (1 + k)) by lia.
    rewrite !Z.pow_add_r by lia. reflexivity. }
  assert (Hn : 2 ^ n = 2 * 2 ^ (n - 1)).
  { rewrite <- Z.pow_succ_r by (unfold n; lia). f_equal. lia. }
  assert (HP : 5 * j * 2 ^ k * 7205759403792794
               = j * 2 ^ (53 - dj) * 2 ^ n + j * (2 * 2 ^ k)).
  { assert (H55 : 2 ^ (53 - dj) * 2 ^ n = 2 ^ 55 * 2 ^ k).
    { rewrite <- !Z.pow_add_r by (unfold n; lia). f_equal. unfold n. lia. }
    replace (j * 2 ^ (53 - dj) * 2 ^ n)
      with (j * (2 ^ (53 - dj) * 2 ^ n)) by ring.
    rewrite H55. change (2 ^ 55) with 36028797018963968. ring. }
  set (P := 5 * j * 2 ^ k * 7205759403792794) in *.
  assert (Hrem : 0 <= j * (2 * 2 ^ k) < 2 ^ (n - 1)) by (rewrite Hn1; nia).
  assert (Hdiv : P / 2 ^ n = j * 2 ^ (53 - dj)).
  { symmetry. apply Z.div_unique with (j * (2 * 2 ^ k)); lia. }
  assert (Hmod : P mod 2 ^ n = j * (2 * 2 ^ k)).
  { symmetry. apply Z.mod_unique with (j * 2 ^ (53 - dj)); lia. }
  assert (HPpos : 0 < P)
    by (unfold P; repeat apply Z.mul_pos_pos; lia).
  assert (H2n : 0 < 2 ^ n) by (apply Z.pow_pos_nonneg; unfold n; lia).
  assert (HdP : Zdigits2 P = n + 53).
  { apply Zdigits2_unique; [|exact HPpos].
    replace (n + 53 - 1) with (52 + n) by lia.
    replace (n + 53) with (53 + n) by lia.
    rewrite !Z.pow_add_r by (unfold n; lia).
    assert (Ha : 2 ^ (dj - 1) * 2 ^ (53 - dj) = 2 ^ 52)
      by (rewrite <- Z.pow_add_r by lia; f_equal; lia).
    assert (Hb : 2 ^ dj * 2 ^ (53 - dj) = 2 ^ 53)
      by (rewrite <- Z.pow_add_r by lia; f_equal; lia).
    assert (2 ^ 52 <= j * 2 ^ (53 - dj) < 2 ^ 53) by nia.
    rewrite HP. nia. }
  rewrite round_aux_down; rewrite ?HdP;
    replace (n + 53 - 53) with n by lia; try lia.
  rewrite Hdiv. unfold dyadic. fold dj. f_equal. unfold n, k. lia.
Qed.

(** [int(math.Ceil(x))] on a float64 that is an integer. *)
Lemma to_int_Ceil_dyadic (j : Z) :
  0 < j < 2 ^ 53 -> F64.to_int (F64.Ceil (dyadic j 0)) = j.
Proof.
  intros Hj. pose proof (Zdigits2_small j Hj) as Hd.
  rewrite <- (of_int_dyadic j Hj) at 1.
  pose proof (to_int_of_int j ltac:(lia)) as Hint.
  rewrite (of_int_dyadic j Hj) in *. unfold dyadic in *.
  unfold F64.Ceil.
  destruct (dyadic_mantissa j ltac:(lia)) as [Hm |]; [|lia].
  destruct (Z.leb_spec 0 (0 + Zdigits2 j - 53)) as [He|He];
    [exact Hint|].
  rewrite Hm.
  assert (Hp : 0 < 2 ^ (53 - Zdigits2 j)) by (apply Z.pow_pos_nonneg; lia).
  replace (- (0 + Zdigits2 j - 53)) with (53 - Zdigits2 j) by lia.
  replace ((j * 2 ^ (53 - Zdigits2 j) + 2 ^ (53 - Zdigits2 j) - 1)
           / 2 ^ (53 - Zdigits2 j)) with j.
  2: { apply Z.div_unique with (2 ^ (53 - Zdigits2 j) - 1); lia. }
  fold (F64.of_int j). apply to_int_of_int. lia.
Qed.

(** The product by 0.2 of a float64 near [c / 100], [c] not a multiple of
    500: its ceiling is one more than the quotient of [c] by 500. *)
Lemma points_near (mf : positive) (ef c : Z) :
  0 < c < 2 ^ 48 ->
  2 ^ 52 <= Z.pos mf < 2 ^ 53 -> -59 <= ef <= -10 ->
  -300 <= 100 * Z.pos mf - c * 2 ^ (- ef) <= 300 ->
  c mod 500 <> 0 ->
  F64.to_int (F64.Ceil (F64.mul (S754_finite false mf ef) F64.c0_2))
  = c / 500 + 1.
Proof.
  intros Hc Hmf Hef Hnear Hmod.
  unfold F64.mul, F64.c0_2, SFmul. simpl xorb. rewrite Pos2Z.inj_mul.
  set (P := Z.pos mf * 7205759403792794).
  assert (HP : 2 ^ 104 <= P < 2 ^ 106) by (unfold P; lia).
  assert (HdP : Zdigits2 P = 105 \/ Zdigits2 P = 106).
  { destruct (Z_lt_le_dec P (2 ^ 105)).
    - left. apply Zdigits2_unique; simpl; lia.
    - right. apply Zdigits2_unique; simpl; lia. }
  destruct (round_aux_near P (ef + -55) loc_Exact)
    as (m2 & mg & eg & -> & Hm2 & Hmg & Heg & Hval); try lia.
  (* the result, in units of 2^(ef - 55), is within 2^53 of P *)
  assert (HG : exists t, 0 <= t <= 54 /\ eg = ef - 55 + t /\
                 - 2 ^ 53 <= Z.pos mg * 2 ^ t - P <= 2 ^ 53).
  { destruct HdP as [Hd | Hd]; rewrite Hd in *.
    - change (105 - 53) with 52 in *.
      pose proof (Z.div_mod P (2 ^ 52) ltac:(lia)) as Hdm.
      pose proof (Z.mod_pos_bound P (2 ^ 52) ltac:(lia)) as Hmb.
      assert (Hcase : eg - (ef + -55 + 52) = 0 \/ eg - (ef + -55 + 52) = 1)
        by lia.
      destruct Hcase as [H0 | H1].
      + rewrite H0 in Hval. exists 52. simpl Z.pow in Hval. lia.
      + rewrite H1 in Hval. exists 53.
        change (2 ^ 1) with 2 in Hval. change (2 ^ 53) with (2 * 2 ^ 52).
        lia.
    - change (106 - 53) with 53 in *.
      pose proof (Z.div_mod P (2 ^ 53) ltac:(lia)) as Hdm.
      pose proof (Z.mod_pos_bound P (2 ^ 53) ltac:(lia)) as Hmb.
      assert (Hcase : eg - (ef + -55 + 53) = 0 \/ eg - (ef + -55 + 53) = 1)
        by lia.
      destruct Hcase as [H0 | H1].
      + rewrite H0 in Hval. exists 53. simpl Z.pow in Hval. lia.
      + rewrite H1 in Hval. exists 54.
        change (2 ^ 1) with 2 in Hval. change (2 ^ 54) with (2 * 2 ^ 53).
        lia. }
  destruct HG as (t & Ht & Hegt & HGP).
  set (W := 2 ^ (- ef)) in *.
  assert (HW : 2 ^ 10 <= W) by (apply Z.pow_le_mono_r; lia).
  pose proof (Z.div_mod c 500 ltac:(lia)) as Hdm.
  pose proof (Z.mod_pos_bound c 500 ltac:(lia)) as Hmb.
  set (K := c / 500) in *. set (rho := c mod 500) in *.
  assert (HK : 0 <= K) by (apply Z.div_pos; lia).
  (* d is the weight of one unit in the mantissa mg *)
  set (d := 2 ^ (- eg)).
  assert (Hd : 0 < d) by (apply Z.pow_pos_nonneg; lia).
  assert (HdW : d * 2 ^ t = 2 ^ 55 * W).
  { unfold d, W. rewrite <- !Z.pow_add_r by lia. f_equal. lia. }
  assert (Hpt : 0 < 2 ^ t) by (apply Z.pow_pos_nonneg; lia).
  assert (HcW : c * W = 500 * (K * W) + rho * W) by nia.
  assert (HrW : W <= rho * W <= 499 * W) by nia.
  assert (HcW48 : c * W < 2 ^ 48 * W) by nia.
  assert (H500P : 500 * P = 100 * Z.pos mf * 36028797018963970)
    by (unfold P; lia).
  assert (HKW : 0 <= K * W) by nia.
  (* K * d < mg < (K + 1) * d, multiplied by 500 * 2^t *)
  assert (Hlow : 500 * (K * (d * 2 ^ t)) < 500 * (Z.pos mg * 2 ^ t)).
  { rewrite HdW. change (2 ^ 55) with 36028797018963968.
    change (2 ^ 53) with 9007199254740992 in HGP. lia. }
  assert (Hhigh : 500 * (Z.pos mg * 2 ^ t) < 500 * ((K + 1) * (d * 2 ^ t))).
  { rewrite HdW. change (2 ^ 55) with 36028797018963968.
    change (2 ^ 53) with 9007199254740992 in HGP.
    change (2 ^ 48) with 281474976710656 in HcW48. lia. }
  assert (Hmgd : K * d < Z.pos mg < (K + 1) * d) by nia.
  unfold F64.Ceil.
  replace (0 <=? eg) with false by (symmetry; apply Z.leb_gt; lia).
  fold d.
  replace ((Z.pos mg + d - 1) / d) with (K + 1).
  2: { apply Z.div_unique with (Z.pos mg + d - 1 - d * (K + 1)); lia. }
  fold (F64.of_int (K + 1)).
  apply to_int_of_int.
  assert (K < 2 ^ 48) by (unfold K; apply Z.div_lt_upper_bound; lia).
  lia.
Qed.

(** [int(math.Ceil(price * 0.2))] for the float64 read from [c] cents. *)
Lemma cents_points (c : Z) :
  0 <= c < 2 ^ 48 ->
  (exists s m e, F64.of_ratio false c 100 = S754_zero s \/
                 F64.of_ratio false c 100 = S754_finite s m e) /\
  F64.to_int (F64.Ceil (F64.mul (F64.of_ratio false c 100) F64.c0_2))
  = (c + 499) / 500.
Proof.
  intros Hc.
  destruct (Z.eq_dec c 0) as [-> | Hnz].
  { split; [exists false, 1%positive, 0; now left|reflexivity]. }
  pose proof (Z.div_mod c 500 ltac:(lia)) as Hdm.
  pose proof (Z.mod_pos_bound c 500 ltac:(lia)) as Hmb.
  destruct (of_ratio_near c ltac:(lia)) as (mf & ef & Hv & Hmf & Hef & Hnear).
  split; [exists false, mf, ef; now right|].
  destruct (Z.eq_dec (c mod 500) 0) as [H500 | H500].
  - (* a multiple of 5 dollars: the product is exact after rounding *)
    set (j := c / 500) in *.
    assert (Hcj : c = 500 * j) by lia.
    assert (Hj : 0 < j < 2 ^ 48) by lia.
    assert (H25 : c mod 25 = 0).
    { rewrite Hcj. replace (500 * j) with (j * 20 * 25) by lia.
      apply Z.mod_mul. lia. }
    destruct (quarter_rules c ltac:(lia) H25) as (Hq & _).
    rewrite Hq. replace (c =? 0) with false
      by (symmetry; apply Z.eqb_neq; exact Hnz).
    replace (c / 25) with (5 * j * 2 ^ 2).
    2: { rewrite Hcj. change (2 ^ 2) with 4.
         replace (500 * j) with (5 * j * 4 * 25) by lia.
         now rewrite Z.div_mul by lia. }
    pose proof (Zdigits2_le (5 * j) 51 ltac:(lia)).
    rewrite dyadic_scale by lia. replace (-2 + 2) with 0 by lia.
    rewrite mul02_fifth by lia. rewrite to_int_Ceil_dyadic by lia.
    apply Z.div_unique with 499; lia.
  - rewrite Hv. rewrite (points_near mf ef c) by (assumption || lia).
    apply Z.div_unique with (c mod 500 - 1); lia.
Qed.

(** For an item whose price is written [whole.ab] (digits, a point, two
    digits) below 2^48 cents, the float64 arithmetic of rule 5 gives the
    exact ceiling of a fifth of the price: [int(math.Ceil(price * 0.2))]
    is the cents divided by 500, rounded up; the item earns that many
    points when the byte length of its trimmed description is a multiple
    of 3, and none otherwise. *)
Theorem price_points_exact (it : Item) (whole : list ascii) (a b : ascii)
    (n : Z) :
  bytes (Price it) = whole ++ "."%char :: a :: b :: [] ->
  whole <> [] ->
  strconv.digits_value whole 0 = Some n ->
  is_digit a = true -> is_digit b = true ->
  cents_of n a b < 2 ^ 48 ->
  exists price,
    strconv.ParseFloat (Price it) = (price, None) /\
    F64.to_int (F64.Ceil (F64.mul price F64.c0_2))
    = (cents_of n a b + 499) / 500 /\
    item_points it =
    if Z.of_nat (String.length (strings.TrimSpace (ShortDescription it)))
       mod 3 =? 0
    then (cents_of n a b + 499) / 500 else 0.
Proof.
  intros Hs Hne Hn Ha Hb Hlt.
  destruct (ParseFloat_cents _ _ _ _ _ Hs Hne Hn Ha Hb) as [Hc0 Hp].
  set (c := cents_of n a b) in *.
  destruct (cents_points c ltac:(lia)) as [(s & m & e & Hshape) Hpts].
  exists (F64.of_ratio false c 100).
  assert (Hparse : strconv.ParseFloat (Price it)
                   = (F64.of_ratio false c 100, None)).
  { rewrite Hp. destruct Hshape as [-> | ->]; reflexivity. }
  split; [exact Hparse|]. split; [exact Hpts|].
  unfold item_points, rule5_step, GoInt.rem.
  rewrite Z.rem_mod_nonneg by lia. rewrite Hparse, Hpts.
  destruct (_ =? 0); [|reflexivity].
  unfold GoInt.add. simpl (0 + _). apply wrap_small.
  assert (0 <= (c + 499) / 500 <= c + 499)
    by (split; [apply Z.div_pos; lia|apply Z.div_le_upper_bound; lia]).
  unfold GoInt.min_int, GoInt.max_int. lia.
Qed.

Lemma price_points_exact_witness :
  exists price,
    strconv.ParseFloat (Price (item "Emils Cheese Pizza" "12.25"))
      = (price, None) /\
    F64.to_int (F64.Ceil (F64.mul price F64.c0_2))
    = (cents_of 12 "2" "5" + 499) / 500 /\
    item_points (item "Emils Cheese Pizza" "12.25") =
    if Z.of_nat (String.length (strings.TrimSpace
         (ShortDescription (item "Emils Cheese Pizza" "12.25"))))
       mod 3 =? 0
    then (cents_of 12 "2" "5" + 499) / 500 else 0.
Proof.
  apply (price_points_exact (item "Emils Cheese Pizza" "12.25")
           ["1"%char; "2"%char] "2" "5" 12);
    try reflexivity.
  discriminate.
Defined.

(** ** The score of an ordinary receipt *)

(** What [Cents.read] accepts. *)
Lemma read_form (s : string) (c : Z) :
  Cents.read s = Some c ->
  exists whole a b n,
    bytes s = whole ++ "."%char :: a :: b :: [] /\
    whole <> [] /\
    strconv.digits_value whole 0 = Some n /\
    is_digit a = true /\ is_digit b = true /\
    c = cents_of n a b.
Proof.
  unfold Cents.read. intros H.
  destruct (rev (bytes s)) as [|b [|a [|dot w]]] eqn:E; try discriminate.
  destruct (byte_eqb dot ".") eqn:Ed; [|discriminate].
  destruct (is_digit a) eqn:Ha; [|discriminate].
  destruct (is_digit b) eqn:Hb; [|discriminate].
  destruct (Nat.eqb (List.length w) 0) eqn:Hw; [discriminate|].
  simpl in H.
  destruct (strconv.digits_value (rev w) 0) as [n|] eqn:Hn; [|discriminate].
  simpl in H. injection H as <-.
  apply Ascii.eqb_eq in Ed. subst dot.
  exists (rev w), a, b, n. repeat split; try assumption.
  - rewrite <- (rev_involutive (bytes s)), E. simpl.
    rewrite <- !app_assoc. reflexivity.
  - intros Hnil. apply (f_equal (@List.length _)) in Hnil.
    rewrite length_rev in Hnil. simpl in Hnil.
    rewrite Hnil in Hw. discriminate.
Qed.

(** [strconv.ParseFloat] on an amount that [Cents.read] accepts. *)
Lemma ParseFloat_read (s : string) (c : Z) :
  Cents.read s = Some c -> c < 2 ^ 48 ->
  0 <= c /\ strconv.ParseFloat s = (F64.of_ratio false c 100, None).
Proof.
  intros Hr Hlt.
  destruct (read_form s c Hr) as (whole & a & b & n & Hs & Hne & Hn & Ha
                                  & Hb & ->).
  destruct (ParseFloat_cents _ _ _ _ _ Hs Hne Hn Ha Hb) as [Hc0 Hp].
  split; [exact Hc0|].
  destruct (cents_points (cents_of n a b) ltac:(lia))
    as [(sg & m & e & Hshape) _].
  rewrite Hp. destruct Hshape as [-> | ->]; reflexivity.
Qed.

(** Rule 5 on an item with an ordinary price. *)
Lemma item_points_cents (it : Item) :
  Cents.ordinary (Price it) = true ->
  item_points it = Cents.item_points it /\ 0 <= item_points it <= 2 ^ 32.
Proof.
  unfold Cents.ordinary, Cents.item_points. intros Ho.
  destruct (Cents.read (Price it)) as [c|] eqn:Hr; [|discriminate].
  apply Z.ltb_lt in Ho.
  destruct (ParseFloat_read _ _ Hr ltac:(lia)) as [Hc0 Hp].
  destruct (cents_points c ltac:(lia)) as [_ Hpts].
  assert (Hq : 0 <= (c + 499) / 500 <= 2 ^ 32).
  { split; [apply Z.div_pos; lia|].
    apply Z.div_le_upper_bound; [lia|]. change (2 ^ 32) with 4294967296.
    change (2 ^ 40) with 1099511627776 in Ho. lia. }
  unfold item_points, rule5_step, GoInt.rem.
  rewrite Z.rem_mod_nonneg by lia. rewrite Hp, Hpts.
  destruct (_ =? 0); [|split; [reflexivity|lia]].
  unfold GoInt.add. simpl (0 + _). rewrite wrap_small.
  - split; [reflexivity|exact Hq].
  - unfold GoInt.min_int, GoInt.max_int. change (2 ^ 32) with 4294967296 in Hq.
    lia.
Qed.

Lemma sum_points_cents (items : list Item) :
  Forall (fun it => Cents.ordinary (Price it) = true) items ->
  sum_points items
  = fold_right (fun it acc => Cents.item_points it + acc) 0 items /\
  0 <= sum_points items <= 2 ^ 32 * Z.of_nat (List.length items).
Proof.
  induction 1 as [|it items Hit _ [IH1 IH2]]; [simpl; lia|].
  destruct (item_points_cents it Hit) as [H1 H2].
  change (sum_points (it :: items))
    with (item_points it + sum_points items).
  cbn [fold_right]. rewrite <- IH1, <- H1.
  split; [reflexivity|]. rewrite length_cons, Nat2Z.inj_succ. lia.
Qed.

(** The score of an ordinary receipt, in whole cents. *)
Lemma calculatePoints_cents (r : Receipt) (dayText hourText : string) :
  Items r <> [] ->
  strings.Split (PurchaseDate r) "-" !! 2%nat = Some dayText ->
  strings.Split (PurchaseTime r) ":" !! 0%nat = Some hourText ->
  Cents.ordinary (Total r) = true ->
  Forall (fun it => Cents.ordinary (Price it) = true) (Items r) ->
  Z.of_nat (String.length (Retailer r)) < 2 ^ 32 ->
  Z.of_nat (List.length (Items r)) < 2 ^ 30 ->
  calculatePoints r = Some (Cents.points r dayText hourText).
Proof.
  intros Hitems Hday Hhour Htotal Hprices Hret Hn.
  rewrite (calculatePoints_wrap_sum r dayText hourText Hitems Hday Hhour).
  unfold Cents.ordinary in Htotal. unfold exact_points, Cents.points.
  destruct (Cents.read (Total r)) as [c|] eqn:Hr; [|discriminate].
  apply Z.ltb_lt in Htotal.
  destruct (ParseFloat_read _ _ Hr ltac:(lia)) as [Hc0 Hp].
  destruct (cents_rules c ltac:(lia)) as [H3 H2].
  rewrite Hp, H2, H3.
  rewrite (countAlphanumeric_alnum_filter (Retailer r))
    by (unfold GoInt.max_int; lia).
  destruct (sum_points_cents (Items r) Hprices) as [Hs Hsr].
  rewrite <- Hs.
  assert (Ha : Z.of_nat (alnum_bytes (Retailer r))
               <= Z.of_nat (String.length (Retailer r))).
  { unfold alnum_bytes. rewrite <- bytes_length.
    apply Nat2Z.inj_le, filter_length_le. }
  pose proof (Z.div_pos (Z.of_nat (List.length (Items r))) 2
                ltac:(lia) ltac:(lia)) as Hq0.
  pose proof (Z.div_le_upper_bound (Z.of_nat (List.length (Items r))) 2
                (Z.of_nat (List.length (Items r))) ltac:(lia) ltac:(lia))
    as Hq.
  destruct (rule_points_cases F64.zero None dayText hourText)
    as (_ & _ & H6 & H7).
  assert (E2 : (if c mod 100 =? 0 then GoInt.add 0 50 else 0)
               = if c mod 100 =? 0 then 50 else 0)
    by (destruct (_ =? 0); reflexivity).
  assert (E3 : (if c mod 25 =? 0 then GoInt.add 0 25 else 0)
               = if c mod 25 =? 0 then 25 else 0)
    by (destruct (_ =? 0); reflexivity).
  rewrite E2, E3. f_equal. apply wrap_small.
  unfold GoInt.min_int, GoInt.max_int.
  change (2 ^ 32) with 4294967296 in *. change (2 ^ 30) with 1073741824 in *.
  change (2 ^ 63) with 9223372036854775808.
  destruct (c mod 100 =? 0), (c mod 25 =? 0); nia.
Qed.

(** On an ordinary receipt the float64 arithmetic of [calculatePoints]
    computes the integer score of the seven rules: with a total and prices
    written [whole.ab] below 2^40 cents, at least one and fewer than 2^30
    items, a retailer name shorter than 2^32 bytes and a date and a time
    with their fields, the score is the count of letters and digits of
    the retailer, 50 for a total of whole dollars, 25 for a total of whole
    quarters, 5 per pair of items, a fifth of the price rounded up for
    each item whose trimmed description has a length divisible by 3, and
    the points of the day and of the hour. *)
Theorem ordinary_receipt_score (r : Receipt) (dayText hourText : string) :
  Items r <> [] ->
  strings.Split (PurchaseDate r) "-" !! 2%nat = Some dayText ->
  strings.Split (PurchaseTime r) ":" !! 0%nat = Some hourText ->
  Cents.ordinary (Total r) = true ->
  Forall (fun it => Cents.ordinary (Price it) = true) (Items r) ->
  Z.of_nat (String.length (Retailer r)) < 2 ^ 32 ->
  Z.of_nat (List.length (Items r)) < 2 ^ 30 ->
  calculatePoints r = Some (Cents.points r dayText hourText).
Proof. apply calculatePoints_cents. Qed.

Lemma ordinary_receipt_score_witness :
  calculatePoints target_receipt
  = Some (Cents.points target_receipt "01" "13").
Proof.
  apply (ordinary_receipt_score target_receipt "01" "13").
  - discriminate.
  - reflexivity.
  - reflexivity.
  - reflexivity.
  - repeat constructor.
  - reflexivity.
  - reflexivity.
Defined.

(** ** A request with an ordinary receipt *)

(** An ordinary amount is not empty and parses. *)
Lemma ordinary_parses (s : string) :
  Cents.ordinary s = true -> is_empty s = false /\ Spec.parses s = true.
Proof.
  unfold Cents.ordinary. intros Ho.
  destruct (Cents.read s) as [c|] eqn:Hr; [|discriminate].
  apply Z.ltb_lt in Ho. split.
  - destruct s; [discriminate Hr|reflexivity].
  - destruct (ParseFloat_read _ _ Hr ltac:(lia)) as [_ Hp].
    unfold Spec.parses. now rewrite Hp.
Qed.

(** The validation of a receipt with ordinary amounts. *)
Lemma validate_ordinary (r : Receipt) (dayText : string) :
  is_empty (Retailer r) = false ->
  is_empty (PurchaseTime r) = false ->
  Forall (fun it => is_empty (ShortDescription it) = false) (Items r) ->
  Items r <> [] ->
  strings.Split (PurchaseDate r) "-" !! 2%nat = Some dayText ->
  Cents.ordinary (Total r) = true ->
  Forall (fun it => Cents.ordinary (Price it) = true) (Items r) ->
  validate r = inr r.
Proof.
  intros Hret Htime Hdesc Hitems Hday Htotal Hprices.
  destruct (ordinary_parses _ Htotal) as [Ht Hp].
  unfold validate. unfold Spec.parses in Hp. rewrite Hret, Ht, Hp, Htime.
  simpl negb. cbv iota.
  replace (is_empty (PurchaseDate r)) with false.
  2: { destruct (PurchaseDate r); [discriminate Hday|reflexivity]. }
  replace (List.length (Items r) =? 0)%nat with false.
  2: { destruct (Items r); [congruence|reflexivity]. }
  replace (items_loop (Items r)) with (@None string); [reflexivity|].
  symmetry. apply items_loop_passes.
  clear Hitems. induction Hdesc as [|it items Hd _ IH]; [constructor|].
  inversion Hprices; subst. constructor; [|now apply IH].
  unfold item_passes. rewrite Hd.
  now destruct (ordinary_parses (Price it)).
Qed.

(** A request with an ordinary receipt (a retailer, a time, a description
    for every item, a total and prices written [whole.ab] below 2^40
    cents, fewer than 2^30 items, a retailer name shorter than 2^32 bytes,
    a date with its day field) is answered with its identifier, and
    [getPoints] then reads the integer score of the seven rules under
    that identifier. *)
Theorem ordinary_request_stored (id : string) (receipts : gmap string Z)
    (r : Receipt) (dayText hourText : string) :
  is_empty (Retailer r) = false ->
  is_empty (PurchaseTime r) = false ->
  Forall (fun it => is_empty (ShortDescription it) = false) (Items r) ->
  Items r <> [] ->
  strings.Split (PurchaseDate r) "-" !! 2%nat = Some dayText ->
  strings.Split (PurchaseTime r) ":" !! 0%nat = Some hourText ->
  Cents.ordinary (Total r) = true ->
  Forall (fun it => Cents.ordinary (Price it) = true) (Items r) ->
  Z.of_nat (String.length (Retailer r)) < 2 ^ 32 ->
  Z.of_nat (List.length (Items r)) < 2 ^ 30 ->
  fst (processReceipts id receipts r) = StatusOK id /\
  getPoints (snd (processReceipts id receipts r)) id
  = Some (Cents.points r dayText hourText).
Proof.
  intros Hret Htime Hdesc Hitems Hday Hhour Htotal Hprices Hlen Hn.
  unfold processReceipts.
  rewrite (validate_ordinary r dayText) by assumption.
  rewrite (calculatePoints_cents r dayText hourText) by assumption.
  simpl. split; [reflexivity|]. unfold getPoints. apply lookup_insert_eq.
Qed.

Lemma ordinary_request_stored_witness :
  fst (processReceipts "id-1" ∅ target_receipt) = StatusOK "id-1" /\
  getPoints (snd (processReceipts "id-1" ∅ target_receipt)) "id-1"
  = Some (Cents.points target_receipt "01" "13").
Proof.
  apply (ordinary_request_stored "id-1" ∅ target_receipt "01" "13").
  - reflexivity.
  - reflexivity.
  - repeat constructor.
  - discriminate.
  - reflexivity.
  - reflexivity.
  - reflexivity.
  - repeat constructor.
  - reflexivity.
  - reflexivity.
Defined.
